(** * Figma-to-Salt component mapping: a shallow embedding

    The development embeds [SaltComponentMapper] (salt-component-mapper.ts),
    the example cache of [LLMCodeGenerator] and [CodeValidator]
    (llm-code-generator.ts), and proves the properties the specification
    states about them.

    Conventions of the embedding:
    - JavaScript strings are [string]s of 8-bit characters; [toLowerCase]
      folds the ASCII letters only.
    - Numbers read from the design document are finite (they arrive as
      JSON); they are rationals [Q], an absent field is [None], and a
      comparison with [undefined] is false, as in JavaScript.  A
      comparison of two numbers is exact; the result of an addition or a
      division is rounded to the nearest double ([JS.round]).
    - An object used as an insertion-ordered dictionary ([props]) is an
      association list; the [Map] used as example cache is a [gmap]. *)

From Stdlib Require Import String Ascii List ZArith QArith Qround Qabs Qpower Lqa Lia Bool.
From stdpp Require Import gmap strings.
Import ListNotations.

Local Open Scope string_scope.
Local Open Scope list_scope.

(** ** JavaScript string primitives *)

Module JS.

Definition lower_ascii (c : ascii) : ascii :=
  let n := nat_of_ascii c in
  if (Nat.leb 65 n && Nat.leb n 90)%bool then ascii_of_nat (n + 32) else c.

(** [s.toLowerCase()] *)
Fixpoint toLowerCase (s : string) : string :=
  match s with
  | EmptyString => EmptyString
  | String c r => String (lower_ascii c) (toLowerCase r)
  end.

(** [s.startsWith(p)] *)
Fixpoint startsWith (s p : string) : bool :=
  match p, s with
  | EmptyString, _ => true
  | String _ _, EmptyString => false
  | String a p', String b s' => if Ascii.eqb a b then startsWith s' p' else false
  end.

(** [s.includes(p)] *)
Fixpoint includes (s p : string) : bool :=
  if startsWith s p then true
  else match s with
       | EmptyString => false
       | String _ r => includes r p
       end.

(** [s.split(sep)] for a one-character separator *)
Fixpoint split (sep : ascii) (s : string) : list string :=
  match s with
  | EmptyString => [EmptyString]
  | String c r =>
      if Ascii.eqb c sep then EmptyString :: split sep r
      else match split sep r with
           | h :: t => String c h :: t
           | [] => [String c EmptyString]
           end
  end.

(** [arr.pop()] on a freshly split string: the last element *)
Definition pop (l : list string) : string := List.last l EmptyString.

(** [s.repeat(n)] *)
Fixpoint repeat (s : string) (n : nat) : string :=
  match n with
  | O => EmptyString
  | S k => s +:+ repeat s k
  end.

Definition dquote : string := String (ascii_of_nat 34) EmptyString.
Definition newline : string := String (ascii_of_nat 10) EmptyString.

(** [arr.join(sep)] *)
Fixpoint join (sep : string) (l : list string) : string :=
  match l with
  | [] => EmptyString
  | [x] => x
  | x :: r => x +:+ sep +:+ join sep r
  end.

(** [set.add(x)] on a [Set<string>], which keeps insertion order. *)
Definition set_add (x : string) (s : list string) : list string :=
  if existsb (String.eqb x) s then s else s ++ [x].

(** [new Set(xs)]: the distinct elements in order of first occurrence. *)
Definition new_Set (xs : list string) : list string :=
  fold_left (fun s x => set_add x s) xs [].

(** Truthiness of an optional string and of an optional number. *)
Definition truthy_string (o : option string) : bool :=
  match o with
  | Some s => negb (String.eqb s EmptyString)
  | None => false
  end.

Definition truthy_number (o : option Q) : bool :=
  match o with
  | Some q => negb (Qeq_bool q 0)
  | None => false
  end.

(** [a < b] and [a > b] when [a] may be [undefined]. *)
Definition lt (a : option Q) (b : Q) : bool :=
  match a with
  | Some q => negb (Qle_bool b q)
  | None => false
  end.

Definition gt (a : option Q) (b : Q) : bool :=
  match a with
  | Some q => negb (Qle_bool q b)
  | None => false
  end.

(** The result of an arithmetic operation: a double.  A finite double is
    the rational it denotes; the sign of a zero is not kept, no operation
    modelled here tells the two zeros apart. *)
Inductive Double :=
| NaN
| Infinity (negative : bool)
| Finite (q : Q).

(** The integer [e] with [2^e <= a < 2^(e+1)], for a positive [a]. *)
Definition ilog2 (a : Q) : Z :=
  let k := (Z.log2 (Qnum a) - Z.log2 (Zpos (Qden a)))%Z in
  if Qle_bool (2 ^ k) a then k else (k - 1)%Z.

(** The double nearest to the real [x], the tie going to the even
    significand (IEEE 754 binary64, the rounding of every JavaScript
    operation): 53 significant bits, a spacing of no less than [2^-1074],
    and an infinity once the rounded magnitude reaches [2^1024]. *)
Definition round (x : Q) : Double :=
  if Qeq_bool x 0 then Finite 0
  else
    let a := Qabs x in
    let ulp := (2 ^ Z.max (ilog2 a - 52) (-1074))%Q in
    let s := (a / ulp)%Q in
    let n := Qfloor s in
    let r := (s - inject_Z n)%Q in
    let n' := if Qle_bool r (1 # 2)
              then if Qeq_bool r (1 # 2) then (if Z.even n then n else n + 1)%Z else n
              else (n + 1)%Z in
    let v := Qred (inject_Z n' * ulp) in
    if Qle_bool (2 ^ 1024) v then Infinity (negb (Qle_bool 0 x))
    else Finite (if Qle_bool 0 x then v else Qred (- v)).

(** A number field as an operand: [undefined] converts to [NaN]. *)
Definition operand (o : option Q) : Double :=
  match o with
  | Some q => Finite q
  | None => NaN
  end.

(** [x + y] on numbers *)
Definition add (x y : Double) : Double :=
  match x, y with
  | NaN, _ | _, NaN => NaN
  | Infinity a, Infinity b => if Bool.eqb a b then Infinity a else NaN
  | Infinity a, Finite _ | Finite _, Infinity a => Infinity a
  | Finite p, Finite q => round (p + q)
  end.

(** [x / d] for a positive constant [d] *)
Definition div (x : Double) (d : Q) : Double :=
  match x with
  | NaN => NaN
  | Infinity a => Infinity a
  | Finite p => round (p / d)
  end.

(** [a <= b] for a finite [b] *)
Definition number_le (a : Double) (b : Q) : bool :=
  match a with
  | NaN => false
  | Infinity negative => negative
  | Finite q => Qle_bool q b
  end.

(** The names an object literal inherits from [Object.prototype]. *)
Definition object_prototype_keys : list string :=
  [ "constructor"; "__defineGetter__"; "__defineSetter__"; "hasOwnProperty";
    "__lookupGetter__"; "__lookupSetter__"; "isPrototypeOf";
    "propertyIsEnumerable"; "toString"; "valueOf"; "__proto__"; "toLocaleString" ].

(** The text of an inherited member inside a template literal, as V8
    prints it: the prototype object for [__proto__], a builtin function
    for the other names ([Object] is the one named [constructor]). *)
Definition inherited_text (key : string) : string :=
  if String.eqb key "__proto__" then "[object Object]"
  else "function " +:+ (if String.eqb key "constructor" then "Object" else key)
       +:+ "() { [native code] }".

End JS.

(** ** The design tree and the mapped tree *)

Record Layout := mkLayout {
  layout_mode : option string;
  layout_gap : option Q;
  layout_align : option string;
  layout_justify : option string
}.

Record Fill := mkFill {
  fill_color : option (Q * Q * Q);
  fill_opacity : option Q
}.

(** [node.padding] is a number or an object with four sides. *)
Inductive Spacing :=
| SpUndefined
| SpNumber (value : Q)
| SpSides (top right bottom left : option Q).

Record TextStyle := mkTextStyle {
  style_fontSize : option Q;
  style_fontWeight : option Q;
  style_textAlign : option string
}.

Record BoundingBox := mkBoundingBox {
  box_height : option Q
}.

Set Warnings "-register-all".

(** Modelled from the spec: the module [./types] that declares [FigmaNode]
    is not part of the sources.  The record has the Design Node fields of
    the data model that the mapper reads, each optional as in the
    JavaScript object; an absent [children] array is the empty list. *)
Inductive FigmaNode := mkFigmaNode {
  node_name : option string;
  node_type : string;
  node_text : option string;
  node_visible : option bool;
  node_layout : option Layout;
  node_cornerRadius : option Q;
  node_fills : list Fill;
  node_padding : Spacing;
  node_style : option TextStyle;
  node_absoluteBoundingBox : option BoundingBox;
  node_children : list FigmaNode
}.

(** A prop value: a string, a number, a boolean or, read through an
    object literal by a name the literal does not define, the member of
    [Object.prototype] of that name. *)
Inductive PropValue :=
| VStr (s : string)
| VNum (q : Q)
| VBool (b : bool)
| VInherited (key : string).

(** [Record<string, any>]: keys in insertion order. *)
Definition Props := list (string * PropValue).

Fixpoint set_prop (k : string) (v : PropValue) (ps : Props) : Props :=
  match ps with
  | [] => [(k, v)]
  | (k', v') :: r => if String.eqb k' k then (k, v) :: r else (k', v') :: set_prop k v r
  end.

Fixpoint get_prop (k : string) (ps : Props) : option PropValue :=
  match ps with
  | [] => None
  | (k', v) :: r => if String.eqb k' k then Some v else get_prop k r
  end.

(** [Object.assign(target, source)] *)
Definition assign (target source : Props) : Props :=
  fold_left (fun acc kv => set_prop (fst kv) (snd kv) acc) source target.

Inductive SaltComponent := mkSaltComponent {
  sc_type : string;
  sc_import : string;
  sc_props : Props;
  sc_children : list SaltComponent;
  sc_content : option string
}.

Definition with_children (c : SaltComponent) (cs : list SaltComponent) : SaltComponent :=
  mkSaltComponent (sc_type c) (sc_import c) (sc_props c) cs (sc_content c).

(** ** SaltComponentMapper (salt-component-mapper.ts) *)

Module SaltComponentMapper.

(** The catalog, in declaration order ([Object.entries] order). *)
Definition componentMap : list (string * string) :=
  [ ("Button", "@salt-ds/core/Button");
    ("Input", "@salt-ds/core/Input");
    ("Card", "@salt-ds/core/Card");
    ("Text", "@salt-ds/core/Text");
    ("Stack", "@salt-ds/core/StackLayout");
    ("Grid", "@salt-ds/core/GridLayout");
    ("Flex", "@salt-ds/core/FlexLayout");
    ("Dropdown", "@salt-ds/core/Dropdown");
    ("Checkbox", "@salt-ds/core/Checkbox");
    ("Radio", "@salt-ds/core/RadioButton");
    ("Switch", "@salt-ds/core/Switch");
    ("Dialog", "@salt-ds/core/Dialog");
    ("Tabs", "@salt-ds/core/Tabs");
    ("Avatar", "@salt-ds/core/Avatar");
    ("Badge", "@salt-ds/core/Badge");
    ("Tooltip", "@salt-ds/core/Tooltip") ].

Definition catalog_keys : list string := map fst componentMap.

(** [this.componentMap[k]] *)
Fixpoint lookup_import (k : string) (m : list (string * string)) : option string :=
  match m with
  | [] => None
  | (k', v) :: r => if String.eqb k' k then Some v else lookup_import k r
  end.

(** The loop [for (const name of keys) if (lowered.includes(name.toLowerCase())) return name]
    over the lower-cased node name. *)
Fixpoint first_hint (lowered : string) (keys : list string) : option string :=
  match keys with
  | [] => None
  | k :: r =>
      if JS.includes lowered (JS.toLowerCase k) then Some k else first_hint lowered r
  end.

(** [name?.toLowerCase().includes(word)] *)
Definition name_includes (name : option string) (word : string) : bool :=
  match name with
  | Some n => JS.includes (JS.toLowerCase n) word
  | None => false
  end.

Definition matchComponentName (name : option string) : option string :=
  match name with
  | None => None
  | Some n =>
      if String.eqb n "" then None
      else
        let normalizedName := JS.toLowerCase n in
        match first_hint normalizedName catalog_keys with
        | Some k => Some k
        | None =>
            if JS.includes normalizedName "btn" || JS.includes normalizedName "cta"
            then Some "Button"
            else if JS.includes normalizedName "input" || JS.includes normalizedName "field"
            then Some "Input"
            else if JS.includes normalizedName "dropdown" || JS.includes normalizedName "select"
            then Some "Dropdown"
            else if JS.includes normalizedName "card" || JS.includes normalizedName "tile"
            then Some "Card"
            else if JS.includes normalizedName "modal" || JS.includes normalizedName "dialog"
            then Some "Dialog"
            else None
        end
  end.

(** [node.layout?.mode === m] *)
Definition layout_mode_is (node : FigmaNode) (m : string) : bool :=
  match node_layout node with
  | Some l => match layout_mode l with
              | Some m' => String.eqb m' m
              | None => false
              end
  | None => false
  end.

(** The [switch (node.type)] of [detectComponentType]. *)
Definition infer_from_type (node : FigmaNode) : option string :=
  let t := node_type node in
  if String.eqb t "TEXT" then Some "Text"
  else if String.eqb t "FRAME" then
    if layout_mode_is node "VERTICAL" then Some "Stack"
    else if layout_mode_is node "HORIZONTAL" then Some "Flex"
    else if JS.gt (node_cornerRadius node) 0 then Some "Card"
    else Some "Box"
  else if String.eqb t "RECTANGLE" then
    if name_includes (node_name node) "button" then Some "Button"
    else if JS.gt (node_cornerRadius node) 0 then Some "Card"
    else Some "Box"
  else if String.eqb t "COMPONENT" || String.eqb t "INSTANCE" then
    matchComponentName (node_name node)
  else None.

Definition detectComponentType (node : FigmaNode) : option string :=
  let hint :=
    match node_name node with
    | Some n =>
        if JS.truthy_string (Some n) then first_hint (JS.toLowerCase n) catalog_keys
        else None
    | None => None
    end in
  match hint with
  | Some figmaName => Some figmaName
  | None => infer_from_type node
  end.

(** [node.fills?.[0]] *)
Definition first_fill (node : FigmaNode) : option Fill := hd_error (node_fills node).

Definition detectButtonVariant (node : FigmaNode) : string :=
  let name := match node_name node with
              | Some n => JS.toLowerCase n
              | None => ""
              end in
  let has_color := match first_fill node with
                   | Some f => match fill_color f with Some _ => true | None => false end
                   | None => false
                   end in
  if JS.includes name "primary" || has_color then "primary"
  else if JS.includes name "secondary" then "secondary"
  else if JS.includes name "ghost" || JS.includes name "text" then "ghost"
  else "primary".

Definition detectSize (node : FigmaNode) : string :=
  let height := match node_absoluteBoundingBox node with
                | Some b => box_height b
                | None => None
                end in
  let name := match node_name node with
              | Some n => JS.toLowerCase n
              | None => ""
              end in
  if JS.includes name "small" || JS.lt height 32 then "small"
  else if JS.includes name "large" || JS.gt height 48 then "large"
  else "medium".

(** The number compared with the thresholds: the value itself, or for
    an object [(value.top + value.right + value.bottom + value.left) / 4],
    computed from left to right in doubles ([NaN] as soon as one side is
    missing). *)
Definition spacing_number (value : Spacing) : JS.Double :=
  match value with
  | SpUndefined => JS.NaN
  | SpNumber q => JS.Finite q
  | SpSides t r b l =>
      JS.div
        (JS.add (JS.add (JS.add (JS.operand t) (JS.operand r)) (JS.operand b))
           (JS.operand l))
        4
  end.

Definition mapSpacing (value : Spacing) : Q :=
  let v := spacing_number value in
  if JS.number_le v 4 then 1
  else if JS.number_le v 8 then 2
  else if JS.number_le v 16 then 3
  else if JS.number_le v 24 then 4
  else if JS.number_le v 32 then 5
  else 6.

(** The own property [k] of an object literal. *)
Fixpoint own_property (k : string) (m : list (string * string)) : option string :=
  match m with
  | [] => None
  | (k', v) :: r => if String.eqb k' k then Some v else own_property k r
  end.

(** [m[k] || d] on an object literal [m] whose values are non-empty
    strings.  A name that [m] does not define is looked up in
    [Object.prototype], whose members are all truthy; the name
    [undefined] of an absent [k] is found in neither. *)
Definition lookup_or (k : option string) (m : list (string * string)) (d : string) : PropValue :=
  match k with
  | Some s =>
      match own_property s m with
      | Some v => VStr v
      | None => if existsb (String.eqb s) JS.object_prototype_keys
                then VInherited s
                else VStr d
      end
  | None => VStr d
  end.

Definition mapAlignment (align : option string) : PropValue :=
  lookup_or align
    [("MIN", "start"); ("CENTER", "center"); ("MAX", "end"); ("SPACE_BETWEEN", "stretch")]
    "start".

Definition mapJustify (justify : option string) : PropValue :=
  lookup_or justify
    [("MIN", "start"); ("CENTER", "center"); ("MAX", "end");
     ("SPACE_BETWEEN", "space-between"); ("SPACE_AROUND", "space-around");
     ("SPACE_EVENLY", "space-evenly")]
    "start".

Definition extractStyleProps (style : TextStyle) : Props :=
  let props : Props := [] in
  let props := match style_fontSize style with
               | Some q => if JS.truthy_number (Some q) then set_prop "fontSize" (VNum q) props
                           else props
               | None => props
               end in
  let props := match style_fontWeight style with
               | Some q => if JS.truthy_number (Some q) then set_prop "fontWeight" (VNum q) props
                           else props
               | None => props
               end in
  match style_textAlign style with
  | Some a => if JS.truthy_string (Some a)
              then set_prop "textAlign" (VStr (JS.toLowerCase a)) props
              else props
  | None => props
  end.

(** [if (node.padding)] *)
Definition truthy_spacing (value : Spacing) : bool :=
  match value with
  | SpUndefined => false
  | SpNumber q => JS.truthy_number (Some q)
  | SpSides _ _ _ _ => true
  end.

Definition gap_argument (l : Layout) : Spacing :=
  match layout_gap l with
  | Some q => SpNumber q
  | None => SpUndefined
  end.

Definition extractProps (node : FigmaNode) (componentType : string) : Props :=
  let props : Props := [] in
  let props := match node_visible node with
               | Some false => set_prop "hidden" (VBool true) props
               | _ => props
               end in
  let props :=
    if String.eqb componentType "Button" then
      let props := set_prop "variant" (VStr (detectButtonVariant node)) props in
      let props := set_prop "size" (VStr (detectSize node)) props in
      if name_includes (node_name node) "disabled"
      then set_prop "disabled" (VBool true) props
      else props
    else if String.eqb componentType "Input" then
      let placeholder := match node_name node with
                         | Some n => if JS.truthy_string (Some n) then n else "Enter text..."
                         | None => "Enter text..."
                         end in
      let props := set_prop "placeholder" (VStr placeholder) props in
      if name_includes (node_name node) "error"
      then set_prop "validationStatus" (VStr "error") props
      else props
    else if String.eqb componentType "Card" then
      let props := match first_fill node with
                   | Some f =>
                       set_prop "variant"
                         (VStr (if JS.lt (fill_opacity f) 1 then "secondary" else "primary"))
                         props
                   | None => props
                   end in
      if truthy_spacing (node_padding node)
      then set_prop "padding" (VNum (mapSpacing (node_padding node))) props
      else props
    else if String.eqb componentType "Stack" || String.eqb componentType "Flex" then
      match node_layout node with
      | Some l =>
          let props := set_prop "gap" (VNum (mapSpacing (gap_argument l))) props in
          let props := set_prop "align" (mapAlignment (layout_align l)) props in
          if String.eqb componentType "Flex"
          then set_prop "justify" (mapJustify (layout_justify l)) props
          else props
      | None => props
      end
    else props in
  match node_style node with
  | Some style => assign props (extractStyleProps style)
  | None => props
  end.

Definition createSaltComponent (node : FigmaNode) : option SaltComponent :=
  match detectComponentType node with
  | None => None
  | Some componentType =>
      Some {| sc_type := componentType;
              sc_props := extractProps node componentType;
              sc_children := [];
              sc_import := match lookup_import componentType componentMap with
                           | Some path => path
                           | None => componentType
                           end;
              sc_content := if String.eqb (node_type node) "TEXT"
                               && JS.truthy_string (node_text node)
                            then node_text node
                            else None |}
  end.

(** [processNode(node, components, parent)].  The array a new component
    is pushed on is [parent.children] when there is a parent and
    [components] otherwise; [target] is that array, and the result is
    the array once the node and its subtree have been processed.  The
    children of a mapped node are pushed on the new component's own
    [children]; those of an unmapped node on the same [target]. *)
Fixpoint processNode (node : FigmaNode) (target : list SaltComponent) : list SaltComponent :=
  match createSaltComponent node with
  | Some saltComponent =>
      target ++
      [with_children saltComponent
         (fold_left (fun acc child => processNode child acc)
            (node_children node) (sc_children saltComponent))]
  | None =>
      fold_left (fun acc child => processNode child acc) (node_children node) target
  end.

Record FigmaData := mkFigmaData { structure : FigmaNode }.

Definition mapToSaltComponents (figmaData : FigmaData) : list SaltComponent :=
  let components : list SaltComponent := [] in
  processNode (structure figmaData) components.

Section Render.

(** The text JavaScript gives a number inside a template literal. *)
Variable number_to_string : Q -> string.

Definition value_to_string (v : PropValue) : string :=
  match v with
  | VStr s => s
  | VNum q => number_to_string q
  | VBool true => "true"
  | VBool false => "false"
  | VInherited key => JS.inherited_text key
  end.

Definition propsStr (props : Props) : string :=
  JS.join " "
    (map (fun kv => fst kv +:+ "=" +:+ JS.dquote +:+ value_to_string (snd kv) +:+ JS.dquote)
       props).

(** One iteration of the [forEach] of [buildComponentTree]; the state
    is the pair of the two accumulators [tree] and [imports]. *)
Fixpoint buildComponent (component : SaltComponent)
    (st : list string * list string) (level : nat) : list string * list string :=
  let imports := JS.set_add (sc_import component) (snd st) in
  let indent := JS.repeat "  " level in
  let tree := fst st ++
              [indent +:+ "<" +:+ sc_type component +:+ " " +:+
               propsStr (sc_props component) +:+ ">"] in
  let tree := if JS.truthy_string (sc_content component)
              then tree ++ [indent +:+ "  " +:+ default "" (sc_content component)]
              else tree in
  let st' := fold_left (fun acc child => buildComponent child acc (S level))
               (sc_children component) (tree, imports) in
  (fst st' ++ [indent +:+ "</" +:+ sc_type component +:+ ">"], snd st').

Definition buildComponentTree (components : list SaltComponent)
    (st : list string * list string) (level : nat) : list string * list string :=
  fold_left (fun acc component => buildComponent component acc level) components st.

(** One line of the import section; the symbol between the braces is
    [imp.split('/').pop()]. *)
Definition displayed_symbol (imp : string) : string := JS.pop (JS.split "/" imp).

Definition import_line (imp : string) : string :=
  "import { " +:+ displayed_symbol imp +:+ " } from '" +:+ imp +:+ "';".

Definition import_lines (components : list SaltComponent) : list string :=
  map import_line (snd (buildComponentTree components ([], []) 0)).

Definition generateComponentContext (components : list SaltComponent) : string :=
  let st := buildComponentTree components ([], []) 0 in
  JS.newline +:+ "Salt Design System Component Structure:" +:+ JS.newline +:+
  JS.newline +:+ "Imports needed:" +:+ JS.newline +:+
  JS.join JS.newline (map import_line (snd st)) +:+ JS.newline +:+
  JS.newline +:+ "Component hierarchy:" +:+ JS.newline +:+
  JS.join JS.newline (fst st) +:+ JS.newline +:+
  JS.newline +:+ "Additional context:" +:+ JS.newline +:+
  "- Use Salt's design tokens for consistent styling" +:+ JS.newline +:+
  "- Wrap everything in SaltProvider" +:+ JS.newline +:+
  "- Use proper spacing props (1-6 scale)" +:+ JS.newline +:+
  "- Follow Salt's accessibility guidelines" +:+ JS.newline.

End Render.

End SaltComponentMapper.

(** ** The mapper of the implementation guide (src/mappers/salt-mapper.ts)

    The guide carries a second version of the mapper.  Two of its helpers
    are embedded here because the specification words the Input and Text
    rules after them. *)

Module SaltMapperGuide.

(** [mapTextStyle(style)]: [style.fontSize || 14], then the tiers. *)
Definition mapTextStyle (style : TextStyle) : string :=
  let size := match style_fontSize style with
              | Some q => if JS.truthy_number (Some q) then q else 14%Q
              | None => 14%Q
              end in
  if Qle_bool 32 size then "h1"
  else if Qle_bool 24 size then "h2"
  else if Qle_bool 20 size then "h3"
  else if Qle_bool 18 size then "h4"
  else "body".

(** [extractPlaceholder(node)].  [node.name.toLowerCase()] throws when the
    node has no name: the result is then [None]. *)
Definition extractPlaceholder (node : FigmaNode) : option string :=
  match node_name node with
  | None => None
  | Some n =>
      let name := JS.toLowerCase n in
      Some (if JS.includes name "email" then "Enter email address"
            else if JS.includes name "password" then "Enter password"
            else if JS.includes name "search" then "Search..."
            else if JS.includes name "name" then "Enter your name"
            else match find (fun c => String.eqb (node_type c) "TEXT") (node_children node) with
                 | Some textChild =>
                     if JS.truthy_string (node_text textChild)
                     then default "" (node_text textChild)
                     else "Enter text..."
                 | None => "Enter text..."
                 end)
  end.

End SaltMapperGuide.

(** ** CodeValidator (llm-code-generator.ts) *)

Module CodeValidator.

Record ValidationResult := mkValidationResult {
  valid : bool;
  errors : list string;
  suggestions : list string
}.

Definition saltComponents : list string := ["Button"; "Input"; "Card"; "Stack"; "Flex"].

(** The template literal handed to [code.includes]: the text is searched
    for as it stands, it is not a regular expression. *)
Definition import_pattern (comp : string) : string :=
  "import.*" +:+ comp +:+ ".*from.*@salt-ds".

(** The body of [saltComponents.forEach]. *)
Definition check_component (code : string) (errors : list string) (comp : string) : list string :=
  if JS.includes code ("<" +:+ comp) && negb (JS.includes code (import_pattern comp))
  then errors ++ [comp +:+ " component used but not imported from Salt"]
  else errors.

(** [validateReactCode(code)].  Nothing in the [try] block throws on a
    string, so the [catch] branch is never taken and the function is
    total; the promise it returns is already resolved. *)
Definition validateReactCode (code : string) : ValidationResult :=
  let errors : list string := [] in
  let suggestions : list string := [] in
  let errors := if negb (JS.includes code "@salt-ds/core")
                then errors ++ ["Missing Salt Design System imports"]
                else errors in
  let hasExport := JS.includes code "export default" || JS.includes code "export {" in
  let errors := if negb hasExport
                then errors ++ ["Component must be exported"]
                else errors in
  let suggestions := if JS.includes code "className=" && negb (JS.includes code "styles.")
                     then suggestions ++
                          ["Consider using CSS modules or styled-components for styling"]
                     else suggestions in
  let suggestions := if negb (JS.includes code "key=") && JS.includes code ".map("
                     then suggestions ++ ["Add key props to mapped elements"]
                     else suggestions in
  let errors := fold_left (check_component code) saltComponents errors in
  {| valid := Nat.eqb (length errors) 0; errors := errors; suggestions := suggestions |}.

(** An import statement that mentions [comp]: the word [import] with
    [comp] somewhere after it. *)
Fixpoint after_first (s p : string) : option string :=
  if JS.startsWith s p then Some s
  else match s with
       | EmptyString => None
       | String _ r => after_first r p
       end.

Definition import_mentions (code comp : string) : bool :=
  match after_first code "import" with
  | Some rest => JS.includes rest comp
  | None => false
  end.

End CodeValidator.

(** ** The example cache of LLMCodeGenerator (llm-code-generator.ts) *)

Module LLMCodeGenerator.

(** What [axios.post] to the [/qna] endpoint does for one component type:
    it throws (network error, error status, no [data]), or it delivers a
    reply whose [answer] is a string or is null or absent. *)
Inductive QnAReply :=
| PostFails
| Reply (answer : option string).

(** The endpoint as one generation call sees it.  A call asks at most
    once per component type, so a function of the type is general. *)
Definition Remote := string -> QnAReply.

(** The generator instance and what it has done: the cache, the
    component types posted to the endpoint, the [console.warn] lines. *)
Record State := mkState {
  exampleCache : gmap string string;
  posted : list string;
  warned : list string
}.

Inductive Outcome (A : Type) :=
| Returns (a : A)
| Throws.
Arguments Returns {A} a.
Arguments Throws {A}.

(** [fetchExampleFromQnA]: the [try] turns every failure into [null]. *)
Definition fetchExampleFromQnA (remote : Remote) (componentType : string) (st : State)
    : Outcome (option string) * State :=
  let st := mkState (exampleCache st) (posted st ++ [componentType]) (warned st) in
  match remote componentType with
  | Reply answer => (Returns (if JS.truthy_string answer then answer else None), st)
  | PostFails => (Returns None, st)
  end.

(** One iteration of the loop of [fetchRelevantExamples]. *)
Definition fetch_step (remote : Remote) (acc : list string * State) (type : string)
    : list string * State :=
  let '(examples, st) := acc in
  match exampleCache st !! type with
  | Some cached => (examples ++ [cached], st)
  | None =>
      match fetchExampleFromQnA remote type st with
      | (Returns (Some example), st) =>
          (examples ++ [example],
           mkState (<[type := example]> (exampleCache st)) (posted st) (warned st))
      | (Returns None, st) => (examples, st)
      | (Throws, st) =>
          (examples,
           mkState (exampleCache st) (posted st)
             (warned st ++ ["Failed to fetch example for " +:+ type +:+ ":"]))
      end
  end.

Definition fetchRelevantExamples (remote : Remote) (components : list SaltComponent)
    (st : State) : list string * State :=
  let examples : list string := [] in
  let componentTypes := JS.new_Set (map sc_type components) in
  fold_left (fetch_step remote) componentTypes (examples, st).

(** The component types posted between two states. *)
Definition posted_since (before after : State) : list string :=
  drop (length (posted before)) (posted after).

(** A lookup that fails or comes back empty. *)
Definition no_example (r : QnAReply) : bool :=
  match r with
  | PostFails => true
  | Reply answer => negb (JS.truthy_string answer)
  end.

(** The example a lookup delivers, if any, and the example a component
    type ends up with given the cache before the call. *)
Definition fetched (remote : Remote) (type : string) : option string :=
  match remote type with
  | Reply answer => if JS.truthy_string answer then answer else None
  | PostFails => None
  end.

Definition entry (remote : Remote) (cache : gmap string string) (type : string)
    : option string :=
  match cache !! type with
  | Some cached => Some cached
  | None => fetched remote type
  end.

Definition uncached (cache : gmap string string) (type : string) : bool :=
  match cache !! type with
  | Some _ => false
  | None => true
  end.

End LLMCodeGenerator.

(** ** Notions used in the statements *)

(** The nodes of a mapped tree, in pre-order. *)
Fixpoint all_nodes (c : SaltComponent) : list SaltComponent :=
  c :: flat_map all_nodes (sc_children c).

Definition forest_nodes (cs : list SaltComponent) : list SaltComponent :=
  flat_map all_nodes cs.

(** The import paths of a mapped forest, in the order the renderer meets them. *)
Definition forest_imports (cs : list SaltComponent) : list string :=
  map sc_import (forest_nodes cs).

(** What a design node contributes to the array it is processed into. *)
Fixpoint mapped_forest (node : FigmaNode) : list SaltComponent :=
  match SaltComponentMapper.createSaltComponent node with
  | Some c => [with_children c (flat_map mapped_forest (node_children node))]
  | None => flat_map mapped_forest (node_children node)
  end.

(** The spacing-bucket function on a pixel value. *)
Definition bucket (x : Q) : Q := SaltComponentMapper.mapSpacing (SpNumber x).

(** A mapped node whose type is a catalog key imported from the catalog's
    path, or the generic box, which the catalog does not list. *)
Definition known_type (c : SaltComponent) : Prop :=
  In (sc_type c, sc_import c) SaltComponentMapper.componentMap
  \/ (sc_type c = "Box" /\ sc_import c = "Box").

(** A design node with only the given name, kind, text and children. *)
Definition plain_node (name : option string) (type : string) (text : option string)
    (children : list FigmaNode) : FigmaNode :=
  mkFigmaNode name type text None None None [] SpUndefined None None children.

(** A rectangle named "Email Input" and a text node set in 32 pixels,
    centred. *)
Definition email_input : FigmaNode :=
  plain_node (Some "Email Input") "RECTANGLE" None [].

Definition headline : FigmaNode :=
  mkFigmaNode None "TEXT" (Some "Welcome") None None None [] SpUndefined
    (Some (mkTextStyle (Some 32%Q) None (Some "CENTER"))) None [].

(** The end-to-end scenario: a frame laid out vertically that holds a text
    "Hello" and a rectangle named "Submit Button".  The layout axis of the
    scenario is the [mode] of the node's [layout] descriptor. *)
Definition scenario : FigmaNode :=
  mkFigmaNode None "FRAME" None None
    (Some (mkLayout (Some "VERTICAL") None None None)) None [] SpUndefined None None
    [ plain_node None "TEXT" (Some "Hello") [];
      plain_node (Some "Submit Button") "RECTANGLE" None [] ].

(** The same frame without a layout descriptor. *)
Definition unstyled_frame : FigmaNode :=
  plain_node None "FRAME" None
    [ plain_node None "TEXT" (Some "Hello") [];
      plain_node (Some "Submit Button") "RECTANGLE" None [] ].

(** The import section as the specification words it, under the ways of
    reading "source module" and "package scope". *)
Module PromptSpec.

(** Reading A: the source module is the whole import path and the package
    scope is its leading [@scope] segment; the symbol is the segment that
    follows it. *)
Definition module_A (imp : string) : string := imp.
Definition symbol_A (imp : string) : string := nth 1 (JS.split "/" imp) "".

(** Reading B: the source module is the package, scope and name, and the
    symbol is the first segment after the package. *)
Definition module_B (imp : string) : string := JS.join "/" (take 2 (JS.split "/" imp)).
Definition symbol_B (imp : string) : string := nth 2 (JS.split "/" imp) "".

(** One line per distinct source module, and on each line the symbol the
    specification names. *)
Definition as_specified (module_of symbol_of : string -> string)
    (lines : list string) (components : list SaltComponent) : Prop :=
  length lines = length (JS.new_Set (map module_of (forest_imports components)))
  /\ forall imp, In imp (forest_imports components) ->
       SaltComponentMapper.displayed_symbol imp = symbol_of imp.

End PromptSpec.

(** ** Regular expressions

    The generator reads the completion with three regular expressions.  A
    pattern is a matcher in continuation-passing style: it is given the
    text matched so far, the text of the capture group, the input that is
    left and what follows the pattern, and it tries its choices in the
    order in which a backtracking engine tries them, the longest run first
    for a greedy [+], the shortest first for a lazy [*?], the left branch
    first for [|].  The character classes are the ASCII ones. *)

Module RegExp.

(** The whole match, the capture group and the input after the match. *)
Definition Found : Type := string * string * string.

Definition Cont : Type := string -> string -> string -> option Found.

Definition Pattern : Type := string -> string -> string -> Cont -> option Found.

(** [\s], [\w], a quote of either kind, and their complements. *)
Definition is_space (c : ascii) : bool :=
  let n := nat_of_ascii c in
  (Nat.leb 9 n && Nat.leb n 13) || Nat.eqb n 32.

Definition is_word (c : ascii) : bool :=
  let n := nat_of_ascii c in
  (Nat.leb 97 n && Nat.leb n 122) || (Nat.leb 65 n && Nat.leb n 90)
  || (Nat.leb 48 n && Nat.leb n 57) || Nat.eqb n 95.

Definition is_quote (c : ascii) : bool :=
  let n := nat_of_ascii c in
  Nat.eqb n 39 || Nat.eqb n 34.

Definition not_quote (c : ascii) : bool := negb (is_quote c).

Definition not_closing_brace (c : ascii) : bool := negb (Nat.eqb (nat_of_ascii c) 125).

Definition snoc (s : string) (c : ascii) : string := s +:+ String c EmptyString.

(** The text [s] without its prefix [p]. *)
Fixpoint strip_prefix (p s : string) : option string :=
  match p, s with
  | EmptyString, _ => Some s
  | String _ _, EmptyString => None
  | String a p', String b s' => if Ascii.eqb a b then strip_prefix p' s' else None
  end.

(** A literal text. *)
Definition lit (p : string) : Pattern :=
  fun acc cap s k =>
    match strip_prefix p s with
    | Some r => k (acc +:+ p) cap r
    | None => None
    end.

(** One character of a class. *)
Definition chr (class : ascii -> bool) : Pattern :=
  fun acc cap s k =>
    match s with
    | String c r => if class c then k (snoc acc c) cap r else None
    | EmptyString => None
    end.

(** One pattern after the other. *)
Definition seq (m1 m2 : Pattern) : Pattern :=
  fun acc cap s k => m1 acc cap s (fun acc' cap' r => m2 acc' cap' r k).

(** [m1|m2] *)
Definition alt (m1 m2 : Pattern) : Pattern :=
  fun acc cap s k =>
    match m1 acc cap s k with
    | Some found => Some found
    | None => m2 acc cap s k
    end.

(** [m?] *)
Definition opt (m : Pattern) : Pattern :=
  fun acc cap s k =>
    match m acc cap s k with
    | Some found => Some found
    | None => k acc cap s
    end.

(** [class*], greedy. *)
Fixpoint star (class : ascii -> bool) (acc cap s : string) (k : Cont) : option Found :=
  match s with
  | String c r =>
      if class c then
        match star class (snoc acc c) cap r k with
        | Some found => Some found
        | None => k acc cap s
        end
      else k acc cap s
  | EmptyString => k acc cap s
  end.

(** [class+], greedy. *)
Definition plus (class : ascii -> bool) : Pattern :=
  fun acc cap s k =>
    match s with
    | String c r => if class c then star class (snoc acc c) cap r k else None
    | EmptyString => None
    end.

(** [[\s\S]*?] *)
Fixpoint lazy_any (acc cap s : string) (k : Cont) : option Found :=
  match k acc cap s with
  | Some found => Some found
  | None =>
      match s with
      | String c r => lazy_any (snoc acc c) cap r k
      | EmptyString => None
      end
  end.

(** [(m)], the capture group. *)
Definition group (m : Pattern) : Pattern :=
  fun acc cap s k => m EmptyString cap s (fun g _ r => k (acc +:+ g) g r).

(** The pattern tried at the start of [s]. *)
Definition exec_at (m : Pattern) (s : string) : option Found :=
  m EmptyString EmptyString s (fun acc cap r => Some (acc, cap, r)).

(** [s.match(m)]: the pattern tried at every position from the left. *)
Fixpoint search (m : Pattern) (s : string) : option Found :=
  match exec_at m s with
  | Some found => Some found
  | None =>
      match s with
      | String _ r => search m r
      | EmptyString => None
      end
  end.

(** The loop [while ((match = m.exec(s)) !== null) out.push(match[0])] of
    a pattern with the [g] flag that matches no empty text: [skip] counts
    the characters of the last match that are still to be passed over. *)
Fixpoint exec_all (m : Pattern) (s : string) (skip : nat) : list string :=
  match s with
  | EmptyString => []
  | String _ r =>
      match skip with
      | S n => exec_all m r n
      | O =>
          match exec_at m s with
          | Some (whole, _, _) => whole :: exec_all m r (String.length whole - 1)
          | None => exec_all m r 0
          end
      end
  end.

Definition fence : string := "```".

(** [/```(?:tsx?|jsx?)\n([\s\S]*?)\n```/] *)
Definition code_block : Pattern :=
  seq (lit fence)
    (seq (alt (seq (lit "ts") (opt (lit "x"))) (seq (lit "js") (opt (lit "x"))))
       (seq (lit JS.newline)
          (seq (group lazy_any) (lit (JS.newline +:+ fence))))).

(** [from\s+Q([^Q]+)Q], where [Q] is the class of the single and the
    double quote. *)
Definition from_module : Pattern :=
  seq (lit "from")
    (seq (plus is_space)
       (seq (chr is_quote) (seq (group (plus not_quote)) (chr is_quote)))).

(** [{[^}]+}|\*\s+as\s+\w+|\w+] *)
Definition import_clause : Pattern :=
  alt (seq (lit "{") (seq (plus not_closing_brace) (lit "}")))
    (alt (seq (lit "*")
            (seq (plus is_space) (seq (lit "as") (seq (plus is_space) (plus is_word)))))
       (plus is_word)).

(** [/import\s+(?:{[^}]+}|\*\s+as\s+\w+|\w+)\s+from\s+Q([^Q]+)Q/g] *)
Definition import_statement : Pattern :=
  seq (lit "import")
    (seq (plus is_space)
       (seq import_clause (seq (plus is_space) from_module))).

End RegExp.

(** ** The rest of LLMCodeGenerator: prompt, parsing and generation *)

Module CodeGeneration.

Inductive Result (A : Type) :=
| Ok (a : A)
| Err (message : string).
Arguments Ok {A} a.
Arguments Err {A} message.

Record CodeGenerationRequest := mkRequest {
  figmaData : SaltComponentMapper.FigmaData;
  componentContext : string;
  examples : option (list string);
  requirements : option (list string)
}.

Record GeneratedCode := mkGeneratedCode {
  code : string;
  imports : list string;
  dependencies : list string;
  warnings : list string
}.

(** [validateCode(code)] *)
Definition validateCode (code : string) : list string :=
  let warnings : list string := [] in
  let warnings := if negb (JS.includes code "SaltProvider")
                  then warnings ++ ["Component should be wrapped in SaltProvider"]
                  else warnings in
  let warnings := if negb (JS.includes code ": FC") && negb (JS.includes code "React.FC")
                  then warnings ++ ["Consider adding TypeScript types for the component"]
                  else warnings in
  let warnings := if negb (JS.includes code "aria-") && negb (JS.includes code "role=")
                  then warnings ++ ["Consider adding accessibility attributes"]
                  else warnings in
  if negb (JS.includes code "ErrorBoundary") && negb (JS.includes code "try")
     && negb (JS.includes code "catch")
  then warnings ++ ["Consider adding error handling"]
  else warnings.

(** The package of a module path: [dep.split('/').slice(0, 2).join('/')]
    for a scoped path, [dep.split('/')[0]] otherwise. *)
Definition package_name (dep : string) : string :=
  if JS.startsWith dep "@"
  then JS.join "/" (take 2 (JS.split "/" dep))
  else hd EmptyString (JS.split "/" dep).

(** The body of the [forEach] of [extractDependencies]. *)
Definition add_dependency (deps : list string) (imp : string) : list string :=
  match RegExp.search RegExp.from_module imp with
  | Some (_, dep, _) =>
      if negb (JS.startsWith dep ".") && negb (JS.startsWith dep "/")
      then JS.set_add (package_name dep) deps
      else deps
  | None => deps
  end.

Definition extractDependencies (imports : list string) : list string :=
  fold_left add_dependency imports [].

(** [parseAndValidateCode(llmResponse)] *)
Definition parseAndValidateCode (llmResponse : string) : Result GeneratedCode :=
  match RegExp.search RegExp.code_block llmResponse with
  | None => Err "No code block found in LLM response"
  | Some (_, code, _) =>
      let imports := RegExp.exec_all RegExp.import_statement code 0 in
      let dependencies := extractDependencies imports in
      let warnings := validateCode code in
      Ok {| code := code; imports := imports;
            dependencies := dependencies; warnings := warnings |}
  end.

Section Generation.

(** [JSON.stringify(figmaData, null, 2)] and the text of a number in a
    template literal. *)
Variable stringify : SaltComponentMapper.FigmaData -> string.
Variable number_to_string : Q -> string.

(** The completion endpoint: the text of the first choice for a prompt, or
    the message of the error the call throws. *)
Variable callLLM : string -> Result string.

Definition numbered_requirement (i : nat) (req : string) : string :=
  number_to_string (inject_Z (Z.of_nat (i + 8))) +:+ ". " +:+ req.

Definition buildPrompt (data_figmaData : SaltComponentMapper.FigmaData)
    (data_componentContext : string) (data_examples data_requirements : list string)
    : string :=
  let nl := JS.newline in
  "You are an expert React developer specializing in the Salt Design System. " +:+ nl +:+
  "Generate production-ready React code based on the following Figma design." +:+ nl +:+
  nl +:+
  "FIGMA DESIGN DATA:" +:+ nl +:+
  stringify data_figmaData +:+ nl +:+
  nl +:+
  "COMPONENT MAPPING:" +:+ nl +:+
  data_componentContext +:+ nl +:+
  nl +:+
  "RELEVANT SALT EXAMPLES:" +:+ nl +:+
  JS.join (nl +:+ nl) data_examples +:+ nl +:+
  nl +:+
  "REQUIREMENTS:" +:+ nl +:+
  "1. Use Salt Design System components exclusively" +:+ nl +:+
  "2. Follow React best practices and hooks patterns" +:+ nl +:+
  "3. Make the component fully responsive" +:+ nl +:+
  "4. Include proper TypeScript types" +:+ nl +:+
  "5. Add accessibility attributes (aria-labels, roles)" +:+ nl +:+
  "6. Use Salt's design tokens for styling" +:+ nl +:+
  "7. Implement any interactive behaviors detected in the design" +:+ nl +:+
  JS.join nl (imap numbered_requirement data_requirements) +:+ nl +:+
  nl +:+
  "IMPORTANT RULES:" +:+ nl +:+
  "- Import components from @salt-ds/core" +:+ nl +:+
  "- Wrap the main component in SaltProvider" +:+ nl +:+
  "- Use Salt's spacing scale (1-6) for gaps and padding" +:+ nl +:+
  "- Name the component based on the Figma frame name" +:+ nl +:+
  "- Export as default" +:+ nl +:+
  "- Include error boundaries for robustness" +:+ nl +:+
  "- Add comments explaining complex logic" +:+ nl +:+
  nl +:+
  "Generate the complete React component file with all imports and types.".

(** What a call of [generateReactCode] leaves behind: its result, the
    generator, and the messages of the errors it logged. *)
Record Generation := mkGeneration {
  result : Result GeneratedCode;
  generator : LLMCodeGenerator.State;
  logged : list string
}.

(** [generateReactCode(request)].  The mapper and the prompt do not throw,
    the example lookups do not either; the [catch] sees the error of the
    completion call or of the parser. *)
Definition generateReactCode (remote : LLMCodeGenerator.Remote)
    (request : CodeGenerationRequest) (st : LLMCodeGenerator.State) : Generation :=
  let saltComponents := SaltComponentMapper.mapToSaltComponents (figmaData request) in
  let componentContext :=
    SaltComponentMapper.generateComponentContext number_to_string saltComponents in
  let '(examples, st) := LLMCodeGenerator.fetchRelevantExamples remote saltComponents st in
  let prompt := buildPrompt (figmaData request) componentContext examples
                  (default [] (requirements request)) in
  let outcome := match callLLM prompt with
                 | Ok response => parseAndValidateCode response
                 | Err message => Err message
                 end in
  match outcome with
  | Ok generated => mkGeneration (Ok generated) st []
  | Err message => mkGeneration (Err ("Failed to generate code: " +:+ message)) st [message]
  end.

End Generation.

End CodeGeneration.

(** ** Notions used in the further statements *)

(** The nodes of a design tree, in pre-order. *)
Fixpoint design_nodes (node : FigmaNode) : list FigmaNode :=
  node :: flat_map design_nodes (node_children node).

(** The catalog name found in the node's name, if any: the first loop of
    [detectComponentType]. *)
Definition name_hint (node : FigmaNode) : option string :=
  match node_name node with
  | Some n =>
      if JS.truthy_string (Some n)
      then SaltComponentMapper.first_hint (JS.toLowerCase n) SaltComponentMapper.catalog_keys
      else None
  | None => None
  end.

(** [if (component.content)] *)
Definition has_content (c : SaltComponent) : bool := JS.truthy_string (sc_content c).

(** [node.fills?.[0]?.color] is present. *)
Definition has_fill_color (node : FigmaNode) : bool :=
  match SaltComponentMapper.first_fill node with
  | Some f => match fill_color f with Some _ => true | None => false end
  | None => false
  end.

(** The name is one that every object literal inherits from
    [Object.prototype]. *)
Definition inherited_name (o : option string) : bool :=
  match o with
  | Some s => existsb (String.eqb s) JS.object_prototype_keys
  | None => false
  end.

(** [componentMap[type] || type] *)
Definition import_of (type : string) : string :=
  match SaltComponentMapper.lookup_import type SaltComponentMapper.componentMap with
  | Some path => path
  | None => type
  end.

(** The number of hierarchy lines the renderer writes for a list of nodes. *)
Definition line_count (nodes : list SaltComponent) : nat :=
  2 * length nodes + length (List.filter has_content nodes).

(** A pattern that, when it succeeds, has consumed a prefix of its input and
    handed the rest to what follows. *)
Definition extends (m : RegExp.Pattern) : Prop :=
  forall acc cap s k found,
    m acc cap s k = Some found ->
    exists d cap' r, k (acc +:+ d) cap' r = Some found /\ s = d +:+ r.

(** A pattern that hands the capture group on as it received it. *)
Definition keeps_capture (m : RegExp.Pattern) : Prop :=
  forall acc cap s k found,
    m acc cap s k = Some found ->
    exists acc' r, k acc' cap r = Some found.

(** A pattern whose capture group, when it succeeds, satisfies [P]. *)
Definition captures (P : string -> Prop) (m : RegExp.Pattern) : Prop :=
  forall acc cap s k found,
    m acc cap s k = Some found ->
    exists acc' g r, P g /\ k acc' g r = Some found.

(** The closing fence of a code block and the language tags the generator
    recognises after the opening fence. *)
Definition closing : string := JS.newline +:+ RegExp.fence.

Definition languages : list string := ["ts"; "tsx"; "js"; "jsx"].

(** A module path that is not relative, as [extractDependencies] tests it. *)
Definition external (dep : string) : bool :=
  negb (JS.startsWith dep ".") && negb (JS.startsWith dep "/").

(** The four conditions under which [validateCode] warns, and its four
    warnings in the order of the checks. *)
Definition lacks_provider (code : string) : bool :=
  negb (JS.includes code "SaltProvider").

Definition lacks_types (code : string) : bool :=
  negb (JS.includes code ": FC") && negb (JS.includes code "React.FC").

Definition lacks_accessibility (code : string) : bool :=
  negb (JS.includes code "aria-") && negb (JS.includes code "role=").

Definition lacks_error_handling (code : string) : bool :=
  negb (JS.includes code "ErrorBoundary") && negb (JS.includes code "try")
  && negb (JS.includes code "catch").

Definition all_warnings : list string :=
  [ "Component should be wrapped in SaltProvider";
    "Consider adding TypeScript types for the component";
    "Consider adding accessibility attributes";
    "Consider adding error handling" ].

(** * Properties *)

Import SaltComponentMapper.

(** ** Spacing buckets *)

Section SpacingBuckets.

Local Open Scope Q_scope.

Lemma Qle_bool_false (a b : Q) : Qle_bool a b = false -> b < a.
Proof.
  intros H. apply Qnot_le_lt. intros Hle.
  apply Qle_bool_iff in Hle. congruence.
Qed.

Ltac bucket_cases :=
  unfold mapSpacing, spacing_number, JS.number_le;
  repeat match goal with
    | |- context [Qle_bool ?a ?b] =>
        let E := fresh "E" in
        destruct (Qle_bool a b) eqn:E;
        [apply Qle_bool_iff in E | apply Qle_bool_false in E]
    end.

Lemma bucket_monotonic (x y : Q) : x <= y -> bucket x <= bucket y.
Proof.
  intros Hxy. unfold bucket. bucket_cases; lra.
Qed.

Lemma bucket_range (x : Q) : 1 <= bucket x <= 6.
Proof. unfold bucket. bucket_cases; lra. Qed.

Lemma bucket_twice (x : Q) : bucket (bucket x) = bucket x <-> x <= 4.
Proof.
  unfold bucket. split.
  - unfold mapSpacing at 2 3. unfold spacing_number, JS.number_le.
    destruct (Qle_bool x 4) eqn:E1; [apply Qle_bool_iff in E1; auto|].
    repeat match goal with
    | |- context [Qle_bool x ?b] => destruct (Qle_bool x b)
    end; vm_compute; discriminate.
  - intros Hx. apply Qle_bool_iff in Hx.
    unfold mapSpacing at 2 3. unfold spacing_number, JS.number_le. rewrite Hx. reflexivity.
Qed.

(** C5 (as amended).  The spacing bucket is monotonic and rounds down at
    the exact boundaries 4, 8, 16, 24 and 32; applying it twice gives the
    same bucket exactly for the pixel values of at most 4. *)
Theorem spacing_bucket_properties :
  (forall x y : Q, (x <= y)%Q -> (bucket x <= bucket y)%Q)
  /\ bucket 4 = 1%Q /\ bucket 8 = 2%Q /\ bucket 16 = 3%Q
  /\ bucket 24 = 4%Q /\ bucket 32 = 5%Q /\ bucket 33 = 6%Q
  /\ (forall x : Q, bucket (bucket x) = bucket x <-> (x <= 4)%Q).
Proof.
  split; [exact bucket_monotonic|].
  repeat (split; [reflexivity|]).
  exact bucket_twice.
Qed.

Lemma spacing_bucket_properties_witness :
  (bucket 8 <= bucket 17)%Q /\ bucket (bucket 3) = bucket 3.
Proof.
  split.
  - apply (proj1 spacing_bucket_properties 8%Q 17%Q). vm_compute. discriminate.
  - apply (proj2 (proj2 (proj2 (proj2 (proj2 (proj2 (proj2 spacing_bucket_properties)))))) 3%Q).
    vm_compute. discriminate.
Defined.

(** C5, as stated, fails: the bucket of 8 is 2, and the bucket of 2 is 1. *)
Lemma spacing_bucket_not_idempotent :
  ~ (forall x : Q, bucket (bucket x) = bucket x).
Proof.
  intros H. specialize (H 8%Q). vm_compute in H. discriminate.
Qed.

End SpacingBuckets.


Section TreeInduction.

Lemma FigmaNode_tree_ind (P : FigmaNode -> Prop) :
  (forall node, Forall P (node_children node) -> P node) ->
  forall node, P node.
Proof.
  intros step. fix IH 1. intros [nm ty tx vis lay cr fl pad sty box kids].
  apply step. simpl.
  induction kids as [|k kids IHkids]; constructor; [apply IH | exact IHkids].
Qed.

Lemma SaltComponent_tree_ind (P : SaltComponent -> Prop) :
  (forall c, Forall P (sc_children c) -> P c) ->
  forall c, P c.
Proof.
  intros step. fix IH 1. intros [ty imp props kids content].
  apply step. simpl.
  induction kids as [|k kids IHkids]; constructor; [apply IH | exact IHkids].
Qed.

End TreeInduction.

Section TreeMapper.

Lemma createSaltComponent_children node c :
  createSaltComponent node = Some c -> sc_children c = [].
Proof.
  unfold createSaltComponent. destruct (detectComponentType node); [|discriminate].
  intros [= <-]. reflexivity.
Qed.

Lemma createSaltComponent_None node :
  createSaltComponent node = None <-> detectComponentType node = None.
Proof.
  unfold createSaltComponent. destruct (detectComponentType node); split; congruence.
Qed.

Lemma processNode_unfold node target :
  processNode node target =
  match createSaltComponent node with
  | Some saltComponent =>
      target ++
      [with_children saltComponent
         (fold_left (fun acc child => processNode child acc)
            (node_children node) (sc_children saltComponent))]
  | None =>
      fold_left (fun acc child => processNode child acc) (node_children node) target
  end.
Proof. destruct node; reflexivity. Qed.

Lemma mapped_forest_unfold node :
  mapped_forest node =
  match createSaltComponent node with
  | Some c => [with_children c (flat_map mapped_forest (node_children node))]
  | None => flat_map mapped_forest (node_children node)
  end.
Proof. destruct node; reflexivity. Qed.

Lemma fold_processNode kids :
  Forall (fun k => forall target, processNode k target = target ++ mapped_forest k) kids ->
  forall target,
    fold_left (fun acc child => processNode child acc) kids target =
    target ++ flat_map mapped_forest kids.
Proof.
  induction 1 as [|k kids Hk _ IH]; intros target; simpl.
  - by rewrite app_nil_r.
  - rewrite Hk, IH, <- app_assoc. reflexivity.
Qed.

Lemma processNode_forest node :
  forall target, processNode node target = target ++ mapped_forest node.
Proof.
  induction node as [node IH] using FigmaNode_tree_ind. intros target.
  rewrite processNode_unfold, mapped_forest_unfold.
  destruct (createSaltComponent node) as [c|] eqn:Hc.
  - rewrite (fold_processNode _ IH), (createSaltComponent_children _ _ Hc). reflexivity.
  - apply (fold_processNode _ IH).
Qed.

Lemma fold_processNode_forest kids target :
  fold_left (fun acc child => processNode child acc) kids target =
  target ++ flat_map mapped_forest kids.
Proof.
  apply fold_processNode, Forall_forall. intros k _. apply processNode_forest.
Qed.

Lemma flat_map_processNode kids :
  flat_map mapped_forest kids = flat_map (fun k => processNode k []) kids.
Proof.
  apply flat_map_ext. intros k. by rewrite processNode_forest.
Qed.

End TreeMapper.


(** ** The end-to-end scenario *)

(** C1.  The vertical frame holding the text "Hello" and the rectangle
    "Submit Button" maps to a single Stack root with exactly two children,
    in order: a Text node with content "Hello", and a Button node with
    variant "primary" and size "medium". *)
Theorem scenario_maps_to_stack :
  exists root textNode buttonNode,
    mapToSaltComponents (mkFigmaData scenario) = [root]
    /\ sc_type root = "Stack"
    /\ sc_children root = [textNode; buttonNode]
    /\ sc_type textNode = "Text"
    /\ sc_content textNode = Some "Hello"
    /\ sc_children textNode = []
    /\ sc_type buttonNode = "Button"
    /\ get_prop "variant" (sc_props buttonNode) = Some (VStr "primary")
    /\ get_prop "size" (sc_props buttonNode) = Some (VStr "medium")
    /\ sc_children buttonNode = [].
Proof.
  do 3 eexists. split; [vm_compute; reflexivity|].
  repeat split.
Qed.

(** ** Flattening of unmapped nodes *)

Lemma with_children_nil c : sc_children c = [] -> with_children c [] = c.
Proof. destruct c; simpl; intros ->; reflexivity. Qed.

(** C2.  A node the classifier does not map creates no output node: what
    its children produce is attached, in order, to the array the node
    itself was processed into; a mapped node receives what its children
    produce as its own children.  So with a mapped root, an unmapped
    wrapper child and one mapped grandchild, the grandchild is a direct
    child of the mapped root. *)
Theorem unmapped_nodes_are_flattened :
  (forall node target,
      detectComponentType node = None ->
      processNode node target =
      target ++ flat_map (fun child => processNode child []) (node_children node))
  /\ (forall node c target,
      createSaltComponent node = Some c ->
      processNode node target =
      target ++ [with_children c
                   (flat_map (fun child => processNode child []) (node_children node))])
  /\ (forall root wrapper grandchild r g,
      createSaltComponent root = Some r ->
      node_children root = [wrapper] ->
      detectComponentType wrapper = None ->
      node_children wrapper = [grandchild] ->
      createSaltComponent grandchild = Some g ->
      node_children grandchild = [] ->
      mapToSaltComponents (mkFigmaData root) = [with_children r [g]]).
Proof.
  split; [|split].
  - intros node target Hnone.
    rewrite processNode_forest, mapped_forest_unfold.
    apply createSaltComponent_None in Hnone. rewrite Hnone.
    by rewrite flat_map_processNode.
  - intros node c target Hc.
    rewrite processNode_forest, mapped_forest_unfold, Hc.
    by rewrite flat_map_processNode.
  - intros root wrapper grandchild r g Hr Hkids Hw Hwkids Hg Hgkids.
    unfold mapToSaltComponents. simpl.
    rewrite processNode_forest, mapped_forest_unfold, Hr, Hkids. simpl.
    rewrite (mapped_forest_unfold wrapper).
    apply createSaltComponent_None in Hw. rewrite Hw, Hwkids. simpl.
    rewrite (mapped_forest_unfold grandchild), Hg, Hgkids. simpl.
    rewrite (with_children_nil g (createSaltComponent_children _ _ Hg)).
    reflexivity.
Qed.

Lemma unmapped_nodes_are_flattened_witness :
  mapToSaltComponents
    (mkFigmaData
       (plain_node (Some "Page") "FRAME" None
          [plain_node (Some "Wrapper") "GROUP" None
             [plain_node None "TEXT" (Some "Hi") []]]))
  = [ {| sc_type := "Box"; sc_import := "Box"; sc_props := [];
         sc_children := [ {| sc_type := "Text"; sc_import := "@salt-ds/core/Text";
                             sc_props := []; sc_children := [];
                             sc_content := Some "Hi" |} ];
         sc_content := None |} ].
Proof.
  apply (proj2 (proj2 unmapped_nodes_are_flattened)
           (plain_node (Some "Page") "FRAME" None
              [plain_node (Some "Wrapper") "GROUP" None
                 [plain_node None "TEXT" (Some "Hi") []]])
           (plain_node (Some "Wrapper") "GROUP" None
              [plain_node None "TEXT" (Some "Hi") []])
           (plain_node None "TEXT" (Some "Hi") [])
           {| sc_type := "Box"; sc_import := "Box"; sc_props := [];
              sc_children := []; sc_content := None |}
           {| sc_type := "Text"; sc_import := "@salt-ds/core/Text"; sc_props := [];
              sc_children := []; sc_content := Some "Hi" |});
    reflexivity.
Defined.

(** ** The classifier *)

Lemma first_hint_In lowered keys k :
  first_hint lowered keys = Some k -> In k keys.
Proof.
  induction keys as [|k0 keys IH]; simpl; [discriminate|].
  destruct (JS.includes lowered (JS.toLowerCase k0)).
  - intros [= ->]. by left.
  - intros H. right. by apply IH.
Qed.

Lemma first_hint_first lowered pre k post :
  JS.includes lowered (JS.toLowerCase k) = true ->
  (forall k', In k' pre -> JS.includes lowered (JS.toLowerCase k') = false) ->
  first_hint lowered (pre ++ k :: post) = Some k.
Proof.
  intros Hk. induction pre as [|p pre IH]; intros Hpre; simpl.
  - by rewrite Hk.
  - rewrite (Hpre p) by (by left). apply IH. intros k' Hin. apply Hpre. by right.
Qed.

Lemma includes_empty p : JS.includes "" p = true -> p = "".
Proof. destruct p; [reflexivity | discriminate]. Qed.

Lemma catalog_key_not_empty k : In k catalog_keys -> JS.toLowerCase k <> "".
Proof.
  unfold catalog_keys. simpl. intros H.
  repeat (destruct H as [<-|H]; [discriminate|]). destruct H.
Qed.

Ltac in_catalog := left; unfold catalog_keys; simpl; tauto.

Lemma matchComponentName_range name t :
  matchComponentName name = Some t -> In t catalog_keys.
Proof.
  unfold matchComponentName. destruct name as [n|]; [|discriminate].
  destruct (String.eqb n ""); [discriminate|].
  destruct (first_hint (JS.toLowerCase n) catalog_keys) as [k|] eqn:Hk.
  - intros [= <-]. by apply first_hint_In in Hk.
  - repeat match goal with
           | |- context [if ?b then _ else _] => destruct b
           end; intros [= <-]; unfold catalog_keys; simpl; tauto.
Qed.

Lemma detectComponentType_range node t :
  detectComponentType node = Some t -> In t catalog_keys \/ t = "Box".
Proof.
  unfold detectComponentType.
  assert (Hinfer : infer_from_type node = Some t -> In t catalog_keys \/ t = "Box").
  { unfold infer_from_type.
    repeat match goal with
           | |- context [if ?b then _ else _] => destruct b
           end;
      try (intros [= <-]; (in_catalog || (by right)));
      try discriminate.
    all: intros H; left; by apply matchComponentName_range in H. }
  destruct (node_name node) as [n|]; [|exact Hinfer].
  destruct (JS.truthy_string (Some n)); [|exact Hinfer].
  destruct (first_hint (JS.toLowerCase n) catalog_keys) as [k|] eqn:Hk; [|exact Hinfer].
  intros [= <-]. left. by apply first_hint_In in Hk.
Qed.

(** C10.  When the node's name contains, case-insensitively, several
    catalog names, the classifier returns the one that comes first in the
    declaration order of the catalog: the key [k] that matches while no key
    before it does, whatever matches after it.  "Card Text" is a Card and
    "Text Button" is a Button, for every node kind. *)
Theorem classifier_earliest_catalog_name :
  (forall node n pre k post,
      node_name node = Some n ->
      catalog_keys = pre ++ k :: post ->
      JS.includes (JS.toLowerCase n) (JS.toLowerCase k) = true ->
      (forall k', In k' pre -> JS.includes (JS.toLowerCase n) (JS.toLowerCase k') = false) ->
      detectComponentType node = Some k)
  /\ catalog_keys =
       ["Button"; "Input"; "Card"; "Text"; "Stack"; "Grid"; "Flex"; "Dropdown";
        "Checkbox"; "Radio"; "Switch"; "Dialog"; "Tabs"; "Avatar"; "Badge"; "Tooltip"]
  /\ (forall node, node_name node = Some "Card Text" -> detectComponentType node = Some "Card")
  /\ (forall node, node_name node = Some "Text Button" -> detectComponentType node = Some "Button").
Proof.
  split; [|split; [reflexivity|split]].
  - intros node n pre k post Hname Hkeys Hk Hpre.
    unfold detectComponentType. rewrite Hname.
    assert (Hin : In k catalog_keys) by (rewrite Hkeys; apply in_elt).
    assert (Hn : JS.truthy_string (Some n) = true).
    { destruct n; [|reflexivity]. simpl in Hk.
      apply includes_empty in Hk. by apply catalog_key_not_empty in Hin. }
    rewrite Hn, Hkeys, (first_hint_first _ pre k post Hk Hpre). reflexivity.
  - intros node Hname. unfold detectComponentType. rewrite Hname. reflexivity.
  - intros node Hname. unfold detectComponentType. rewrite Hname. reflexivity.
Qed.

Lemma classifier_earliest_catalog_name_witness :
  detectComponentType (plain_node (Some "Dropdown input") "GROUP" None []) = Some "Input"
  /\ detectComponentType (plain_node (Some "Card Text") "TEXT" None []) = Some "Card".
Proof.
  split.
  - apply (proj1 classifier_earliest_catalog_name
             (plain_node (Some "Dropdown input") "GROUP" None [])
             "Dropdown input" ["Button"] "Input"
             ["Card"; "Text"; "Stack"; "Grid"; "Flex"; "Dropdown";
              "Checkbox"; "Radio"; "Switch"; "Dialog"; "Tabs"; "Avatar"; "Badge"; "Tooltip"]).
    + reflexivity.
    + reflexivity.
    + reflexivity.
    + intros k' [<-|[]]. reflexivity.
  - apply (proj1 (proj2 (proj2 classifier_earliest_catalog_name))). reflexivity.
Defined.

(** ** The types of the mapped nodes *)

Lemma createSaltComponent_known node c :
  createSaltComponent node = Some c -> known_type c.
Proof.
  unfold createSaltComponent.
  destruct (detectComponentType node) as [t|] eqn:Ht; [|discriminate].
  intros [= <-]. unfold known_type. simpl.
  apply detectComponentType_range in Ht as [Hin | ->].
  - left. unfold catalog_keys in Hin. simpl in Hin.
    repeat (destruct Hin as [<-|Hin]; [simpl; tauto|]). destruct Hin.
  - right. split; reflexivity.
Qed.

Lemma known_type_with_children c kids :
  known_type c -> known_type (with_children c kids).
Proof. intros H. exact H. Qed.

Lemma mapped_forest_known node :
  Forall known_type (forest_nodes (mapped_forest node)).
Proof.
  induction node as [node IH] using FigmaNode_tree_ind.
  assert (Hkids : Forall known_type
                    (forest_nodes (flat_map mapped_forest (node_children node)))).
  { unfold forest_nodes. apply Forall_flat_map, Forall_flat_map.
    eapply Forall_impl; [exact IH|]. intros k Hk.
    unfold forest_nodes in Hk. by apply Forall_flat_map in Hk. }
  rewrite mapped_forest_unfold.
  destruct (createSaltComponent node) as [c|] eqn:Hc; [|exact Hkids].
  unfold forest_nodes. simpl. rewrite app_nil_r.
  constructor; [|exact Hkids].
  apply known_type_with_children. by apply createSaltComponent_known in Hc.
Qed.

(** C6 (as amended).  Every node of every tree the mapper produces has a
    type that is a key of the catalog, imported from the catalog's path for
    that key, or has the type "Box", which is not a key of the catalog and
    is imported from "Box". *)
Theorem mapped_types_are_catalog_keys_or_box :
  (forall figmaData c,
      In c (forest_nodes (mapToSaltComponents figmaData)) ->
      (In (sc_type c) catalog_keys /\ In (sc_type c, sc_import c) componentMap)
      \/ (sc_type c = "Box" /\ sc_import c = "Box"))
  /\ ~ In "Box" catalog_keys.
Proof.
  split.
  - intros figmaData c Hin.
    unfold mapToSaltComponents in Hin. rewrite processNode_forest in Hin. simpl in Hin.
    pose proof (mapped_forest_known (structure figmaData)) as Hall.
    rewrite List.Forall_forall in Hall. destruct (Hall c Hin) as [Hcat|Hbox].
    + left. split; [|exact Hcat].
      unfold catalog_keys. change (sc_type c) with (fst (sc_type c, sc_import c)).
      by apply in_map.
    + by right.
  - unfold catalog_keys. simpl. intros H.
    repeat (destruct H as [H|H]; [discriminate|]). destruct H.
Qed.

Lemma mapped_types_are_catalog_keys_or_box_witness :
  (In "Text" catalog_keys /\ In ("Text", "@salt-ds/core/Text") componentMap)
  \/ ("Text" = "Box" /\ "@salt-ds/core/Text" = "Box").
Proof.
  apply (proj1 mapped_types_are_catalog_keys_or_box (mkFigmaData scenario)
           {| sc_type := "Text"; sc_import := "@salt-ds/core/Text"; sc_props := [];
              sc_children := []; sc_content := Some "Hello" |}).
  vm_compute. right. left. reflexivity.
Defined.

(** C6, as stated, fails: a frame without layout and corner radius maps to
    a node of type "Box", and "Box" is not a key of the catalog. *)
Lemma mapped_type_outside_catalog :
  ~ (forall c,
        In c (forest_nodes (mapToSaltComponents
                              (mkFigmaData (plain_node None "FRAME" None [])))) ->
        In (sc_type c) catalog_keys).
Proof.
  intros H.
  specialize (H {| sc_type := "Box"; sc_import := "Box"; sc_props := [];
                   sc_children := []; sc_content := None |}).
  assert (Hbox : In "Box" catalog_keys) by (apply H; vm_compute; left; reflexivity).
  unfold catalog_keys in Hbox. simpl in Hbox.
  repeat (destruct Hbox as [Hbox|Hbox]; [discriminate|]). destruct Hbox.
Qed.

(** ** The prop extractor *)

Lemma matchComponentName_named name t :
  matchComponentName name = Some t -> exists n, name = Some n /\ n <> "".
Proof.
  unfold matchComponentName. destruct name as [n|]; [|discriminate].
  destruct (String.eqb n "") eqn:E; [discriminate|].
  intros _. exists n. split; [reflexivity|]. by apply String.eqb_neq.
Qed.

Lemma infer_Input_named node :
  infer_from_type node = Some "Input" -> exists n, node_name node = Some n /\ n <> "".
Proof.
  unfold infer_from_type.
  repeat match goal with
         | |- context [if ?b then _ else _] => destruct b
         end; try discriminate.
  all: apply matchComponentName_named.
Qed.

Lemma detect_Input_named node :
  detectComponentType node = Some "Input" -> exists n, node_name node = Some n /\ n <> "".
Proof.
  unfold detectComponentType.
  destruct (node_name node) as [n|] eqn:Hn.
  - destruct (JS.truthy_string (Some n)) eqn:Ht.
    + intros _. exists n. split; [reflexivity|].
      intros ->. discriminate.
    + intros H. apply infer_Input_named in H as (m & Hm & Hne).
      rewrite Hn in Hm. exists m. by split.
  - intros H. apply infer_Input_named in H as (m & Hm & _).
    rewrite Hn in Hm. discriminate.
Qed.

Lemma placeholder_of_Input node :
  get_prop "placeholder" (extractProps node "Input") =
  Some (VStr match node_name node with
             | Some n => if String.eqb n "" then "Enter text..." else n
             | None => "Enter text..."
             end).
Proof.
  unfold extractProps, extractStyleProps, assign, JS.truthy_string, JS.truthy_number.
  simpl.
  destruct (node_visible node) as [[|]|];
    destruct (name_includes (node_name node) "error");
    destruct (node_name node) as [n|]; try destruct (String.eqb n "");
    destruct (node_style node) as [[[fs|] [fw|] [ta|]]|]; simpl;
    try destruct (Qeq_bool fs 0); try destruct (Qeq_bool fw 0);
    try destruct (String.eqb ta ""); reflexivity.
Qed.

(** C3 (as amended).  For a node resolved to Input the prop extractor sets
    placeholder to the node's name when the name is not empty, and to
    "Enter text..." otherwise; a node the classifier resolves to Input
    always has a name, so its placeholder is that name. *)
Theorem input_placeholder_is_the_name :
  (forall node,
      get_prop "placeholder" (extractProps node "Input") =
      Some (VStr match node_name node with
                 | Some n => if String.eqb n "" then "Enter text..." else n
                 | None => "Enter text..."
                 end))
  /\ (forall node c,
      detectComponentType node = Some "Input" ->
      createSaltComponent node = Some c ->
      exists n, node_name node = Some n /\ n <> ""
                /\ get_prop "placeholder" (sc_props c) = Some (VStr n)).
Proof.
  split; [exact placeholder_of_Input|].
  intros node c Hdetect Hc.
  destruct (detect_Input_named node Hdetect) as (n & Hn & Hne).
  exists n. repeat split; try assumption.
  unfold createSaltComponent in Hc. rewrite Hdetect in Hc.
  injection Hc as <-. simpl.
  rewrite placeholder_of_Input, Hn.
  apply String.eqb_neq in Hne. by rewrite Hne.
Qed.

Lemma input_placeholder_is_the_name_witness :
  exists n, node_name email_input = Some n /\ n <> ""
            /\ get_prop "placeholder" [("placeholder", VStr "Email Input")] = Some (VStr n).
Proof.
  apply (proj2 input_placeholder_is_the_name email_input
           {| sc_type := "Input"; sc_import := "@salt-ds/core/Input";
              sc_props := [("placeholder", VStr "Email Input")];
              sc_children := []; sc_content := None |});
    reflexivity.
Defined.

(** C3, as stated, fails: the rectangle named "Email Input" resolves to
    Input, its name contains "email", and its placeholder is the name,
    not "Enter email address". *)
Lemma input_placeholder_no_keyword_lookup :
  ~ (detectComponentType email_input = Some "Input" ->
     name_includes (node_name email_input) "email" = true ->
     get_prop "placeholder" (extractProps email_input "Input")
     = Some (VStr "Enter email address")).
Proof.
  intros H. specialize (H eq_refl eq_refl). vm_compute in H. discriminate.
Qed.

(** C4 (as amended).  For a node resolved to Text the prop extractor sets
    neither styleAs nor align; it copies a non-zero font size as fontSize
    and a non-zero font weight as fontWeight, and sets textAlign to the
    lower-cased text alignment when the node's style has one. *)
Theorem text_props_are_the_style_props :
  forall node,
    let props := extractProps node "Text" in
    get_prop "styleAs" props = None
    /\ get_prop "align" props = None
    /\ get_prop "fontSize" props =
       match node_style node with
       | Some style => match style_fontSize style with
                       | Some q => if Qeq_bool q 0 then None else Some (VNum q)
                       | None => None
                       end
       | None => None
       end
    /\ get_prop "fontWeight" props =
       match node_style node with
       | Some style => match style_fontWeight style with
                       | Some q => if Qeq_bool q 0 then None else Some (VNum q)
                       | None => None
                       end
       | None => None
       end
    /\ get_prop "textAlign" props =
       match node_style node with
       | Some style => match style_textAlign style with
                       | Some a => if String.eqb a "" then None
                                   else Some (VStr (JS.toLowerCase a))
                       | None => None
                       end
       | None => None
       end.
Proof.
  intros node.
  unfold extractProps, extractStyleProps, assign, JS.truthy_string, JS.truthy_number.
  simpl.
  destruct (node_visible node) as [[|]|];
    destruct (node_style node) as [[[fs|] [fw|] [ta|]]|]; simpl;
    try destruct (Qeq_bool fs 0); try destruct (Qeq_bool fw 0);
    try destruct (String.eqb ta ""); repeat split.
Qed.

(** C4, as stated, fails: a text node set in 32 pixels and centred resolves
    to Text and gets no styleAs prop and no align prop. *)
Lemma text_has_no_styleAs :
  ~ (detectComponentType headline = Some "Text" ->
     (exists tier, get_prop "styleAs" (extractProps headline "Text") = Some tier)
     /\ get_prop "align" (extractProps headline "Text") = Some (VStr "center")).
Proof.
  intros H. destruct (H eq_refl) as [[tier Htier] _].
  vm_compute in Htier. discriminate.
Qed.

(** ** The validator *)

Section Substrings.

Lemma startsWith_app_l s p q : JS.startsWith s (p +:+ q) = true -> JS.startsWith s p = true.
Proof.
  revert s. induction p as [|a p IH]; intros s; [by destruct s|].
  destruct s as [|b s]; simpl; [discriminate|].
  destruct (Ascii.eqb a b); [apply IH | discriminate].
Qed.

Lemma includes_cons c s p : JS.includes s p = true -> JS.includes (String c s) p = true.
Proof.
  intros H. cbn [JS.includes].
  destruct (JS.startsWith (String c s) p); [reflexivity | exact H].
Qed.

Lemma startsWith_includes s p : JS.startsWith s p = true -> JS.includes s p = true.
Proof. intros H. destruct s; cbn [JS.includes]; by rewrite H. Qed.

Lemma includes_inv s p :
  JS.includes s p = true ->
  JS.startsWith s p = true \/ exists c r, s = String c r /\ JS.includes r p = true.
Proof.
  destruct s as [|c r]; cbn [JS.includes].
  - destruct (JS.startsWith "" p); [by left | discriminate].
  - destruct (JS.startsWith (String c r) p) eqn:E; [by left|].
    intros H. right. by exists c, r.
Qed.

Lemma startsWith_app_r s p q : JS.startsWith s (p +:+ q) = true -> JS.includes s q = true.
Proof.
  revert s. induction p as [|a p IH]; intros s.
  - apply startsWith_includes.
  - destruct s as [|b s]; simpl; [discriminate|].
    destruct (Ascii.eqb a b); [|discriminate].
    intros H. apply includes_cons, IH, H.
Qed.

Lemma includes_app_r s p q : JS.includes s (p +:+ q) = true -> JS.includes s q = true.
Proof.
  induction s as [|c s IH]; intros H; apply includes_inv in H as [H|(c' & r & Heq & H)].
  - by apply startsWith_app_r in H.
  - discriminate.
  - by apply startsWith_app_r in H.
  - injection Heq as -> ->. apply includes_cons, IH, H.
Qed.

Lemma includes_app_l s p q : JS.includes s (p +:+ q) = true -> JS.includes s p = true.
Proof.
  induction s as [|c s IH]; intros H; apply includes_inv in H as [H|(c' & r & Heq & H)].
  - apply startsWith_includes. by apply startsWith_app_l in H.
  - discriminate.
  - apply startsWith_includes. by apply startsWith_app_l in H.
  - injection Heq as -> ->. apply includes_cons, IH, H.
Qed.

(** A text that contains [p] followed by [q] and more contains [q] from
    its first [p] on. *)
Lemma includes_after_first s p q :
  JS.includes s (p +:+ q) = true ->
  exists rest, CodeValidator.after_first s p = Some rest /\ JS.includes rest q = true.
Proof.
  induction s as [|c s IH]; intros H.
  - apply includes_inv in H as [H|(c' & r & Heq & _)]; [|discriminate].
    exists "". split.
    + cbn [CodeValidator.after_first]. by rewrite (startsWith_app_l _ _ _ H).
    + by apply startsWith_app_r in H.
  - destruct (JS.startsWith (String c s) p) eqn:E.
    + exists (String c s). split.
      * unfold CodeValidator.after_first. by rewrite E.
      * by apply includes_app_r in H.
    + apply includes_inv in H as [H|(c' & r & Heq & H)].
      * apply startsWith_app_l in H. congruence.
      * injection Heq as -> ->. destruct (IH H) as (rest & Hrest & Hq).
        exists rest. split; [|exact Hq].
        change (CodeValidator.after_first (String c' r) p)
          with (if JS.startsWith (String c' r) p then Some (String c' r)
                else CodeValidator.after_first r p).
        by rewrite E.
Qed.

End Substrings.

Import CodeValidator.

Lemma import_pattern_mentions code comp :
  JS.includes code (import_pattern comp) = true -> import_mentions code comp = true.
Proof.
  unfold import_pattern, import_mentions. intros H.
  change ("import.*" +:+ comp +:+ ".*from.*@salt-ds")
    with ("import" +:+ (".*" +:+ comp +:+ ".*from.*@salt-ds")) in H.
  apply includes_after_first in H as (rest & -> & H).
  apply includes_app_r in H. by apply includes_app_l in H.
Qed.

Lemma fold_check_component code comps errs :
  fold_left (check_component code) comps errs =
  errs ++ flat_map (check_component code []) comps.
Proof.
  revert errs. induction comps as [|comp comps IH]; intros errs; simpl.
  - by rewrite app_nil_r.
  - rewrite IH. unfold check_component.
    destruct (JS.includes code ("<" +:+ comp) && negb (JS.includes code (import_pattern comp)));
      simpl; [by rewrite <- app_assoc | reflexivity].
Qed.

Lemma valid_iff_no_errors code :
  valid (validateReactCode code) = true <-> errors (validateReactCode code) = [].
Proof.
  unfold validateReactCode. cbn [valid errors].
  destruct (fold_left _ _ _); simpl; split; congruence.
Qed.

(** C8.  The validator answers valid exactly when its list of errors is
    empty.  Its import check does not do what its error message says, for
    it looks for the pattern as plain text: a text that contains "export
    default", imports Button from "@salt-ds/core" and uses no checked tag
    but Button is refused with the error that Button is not imported; and
    a text that uses Button with no import statement, only a comment that
    holds the pattern, gets no error that names Button. *)
Theorem validator_import_check_is_literal :
  (forall code,
     valid (validateReactCode code) = true <-> errors (validateReactCode code) = [])
  /\ (let code :=
        "import { Button } from '@salt-ds/core'; export default () => <Button>Go</Button>;" in
      JS.includes code "export default" = true
      /\ JS.includes code "@salt-ds/core" = true
      /\ import_mentions code "Button" = true
      /\ List.filter (fun comp => JS.includes code ("<" +:+ comp)) saltComponents = ["Button"]
      /\ validateReactCode code =
         {| valid := false;
            errors := ["Button component used but not imported from Salt"];
            suggestions := [] |})
  /\ (let code :=
        "// import.*Button.*from.*@salt-ds" +:+ JS.newline +:+
        "export default () => <Button>Go</Button>;" in
      JS.includes code "<Button" = true
      /\ List.filter (fun e => JS.includes e "Button") (errors (validateReactCode code)) = []
      /\ errors (validateReactCode code) = ["Missing Salt Design System imports"]).
Proof.
  split; [exact valid_iff_no_errors|].
  split; cbv zeta; repeat split; vm_compute; reflexivity.
Qed.

(** ** The import section of the prompt *)

Section Sets.

Lemma set_add_In x y s : In y (JS.set_add x s) <-> y = x \/ In y s.
Proof.
  unfold JS.set_add. destruct (existsb (String.eqb x) s) eqn:E.
  - split; [by right|]. intros [->|H]; [|exact H].
    apply existsb_exists in E as (z & Hz & Heq). apply String.eqb_eq in Heq. by subst.
  - rewrite in_app_iff. simpl. split.
    + intros [H|[->|[]]]; [by right | by left].
    + intros [->|H]; [right; by left | by left].
Qed.

Lemma set_add_NoDup x s : NoDup s -> NoDup (JS.set_add x s).
Proof.
  intros Hs. unfold JS.set_add. destruct (existsb (String.eqb x) s) eqn:E; [exact Hs|].
  apply NoDup_app. repeat split.
  - exact Hs.
  - intros y Hy Hx. apply list_elem_of_In in Hy. apply list_elem_of_In in Hx.
    destruct Hx as [<-|[]].
    assert (existsb (String.eqb x) s = true); [|congruence].
    apply existsb_exists. exists x. split; [exact Hy | apply String.eqb_refl].
  - apply NoDup_singleton.
Qed.

Lemma fold_set_add_In xs : forall s y,
  In y (fold_left (fun s x => JS.set_add x s) xs s) <-> In y xs \/ In y s.
Proof.
  induction xs as [|x xs IH]; intros s y; simpl.
  - tauto.
  - rewrite IH, set_add_In. intuition (subst; auto).
Qed.

Lemma fold_set_add_NoDup xs : forall s,
  NoDup s -> NoDup (fold_left (fun s x => JS.set_add x s) xs s).
Proof.
  induction xs as [|x xs IH]; intros s Hs; simpl; [exact Hs|].
  apply IH, set_add_NoDup, Hs.
Qed.

Lemma new_Set_In xs y : In y (JS.new_Set xs) <-> In y xs.
Proof. unfold JS.new_Set. rewrite fold_set_add_In. simpl. tauto. Qed.

Lemma new_Set_NoDup xs : NoDup (JS.new_Set xs).
Proof. apply fold_set_add_NoDup. constructor. Qed.

End Sets.

Section ImportSection.

Variable number_to_string : Q -> string.

Lemma buildComponent_unfold component st level :
  buildComponent number_to_string component st level =
  let imports := JS.set_add (sc_import component) (snd st) in
  let indent := JS.repeat "  " level in
  let tree := fst st ++
              [indent +:+ "<" +:+ sc_type component +:+ " " +:+
               propsStr number_to_string (sc_props component) +:+ ">"] in
  let tree := if JS.truthy_string (sc_content component)
              then tree ++ [indent +:+ "  " +:+ default "" (sc_content component)]
              else tree in
  let st' := fold_left (fun acc child => buildComponent number_to_string child acc (S level))
               (sc_children component) (tree, imports) in
  (fst st' ++ [indent +:+ "</" +:+ sc_type component +:+ ">"], snd st').
Proof. destruct component; reflexivity. Qed.

Lemma fold_buildComponent_imports kids level :
  Forall (fun k => forall st lvl,
              snd (buildComponent number_to_string k st lvl) =
              fold_left (fun s x => JS.set_add x s) (map sc_import (all_nodes k)) (snd st))
    kids ->
  forall st,
    snd (fold_left (fun acc child => buildComponent number_to_string child acc level) kids st) =
    fold_left (fun s x => JS.set_add x s) (forest_imports kids) (snd st).
Proof.
  unfold forest_imports, forest_nodes.
  induction 1 as [|k kids Hk _ IH]; intros st; simpl; [reflexivity|].
  rewrite IH, Hk, map_app, fold_left_app. reflexivity.
Qed.

Lemma buildComponent_imports component :
  forall st level,
    snd (buildComponent number_to_string component st level) =
    fold_left (fun s x => JS.set_add x s) (map sc_import (all_nodes component)) (snd st).
Proof.
  induction component as [component IH] using SaltComponent_tree_ind.
  intros st level. rewrite buildComponent_unfold. cbn zeta. cbn [snd].
  rewrite (fold_buildComponent_imports _ _ IH). 
  destruct component as [ty imp props kids content]. reflexivity.
Qed.

Lemma buildComponentTree_imports components :
  snd (buildComponentTree number_to_string components ([], []) 0) =
  JS.new_Set (forest_imports components).
Proof.
  unfold buildComponentTree.
  rewrite fold_buildComponent_imports; [reflexivity|].
  apply Forall_forall. intros k _. apply buildComponent_imports.
Qed.

(** C7 (as amended).  The import section has exactly one line per distinct
    import path of the tree, in the order of first appearance; the line for
    a path names one symbol, the last segment of the path, which for a
    catalog path is the segment after "@salt-ds/core". *)
Theorem import_section_one_line_per_path :
  forall components,
    import_lines number_to_string components =
      map import_line (JS.new_Set (forest_imports components))
    /\ NoDup (JS.new_Set (forest_imports components))
    /\ (forall imp, In imp (JS.new_Set (forest_imports components)) <->
                    In imp (forest_imports components))
    /\ (forall imp, import_line imp =
                    "import { " +:+ JS.pop (JS.split "/" imp) +:+ " } from '" +:+ imp +:+ "';")
    /\ (forall key path, In (key, path) componentMap ->
                         JS.split "/" path = ["@salt-ds"; "core"; displayed_symbol path]).
Proof.
  intros components. repeat split.
  - unfold import_lines. by rewrite buildComponentTree_imports.
  - apply new_Set_NoDup.
  - apply new_Set_In.
  - apply new_Set_In.
  - intros key path Hin. unfold componentMap in Hin. simpl in Hin.
    repeat (destruct Hin as [[= <- <-]|Hin]; [reflexivity|]). destruct Hin.
Qed.

End ImportSection.

Lemma import_section_one_line_per_path_witness :
  JS.split "/" "@salt-ds/core/StackLayout" =
  ["@salt-ds"; "core"; displayed_symbol "@salt-ds/core/StackLayout"].
Proof.
  apply (proj2 (proj2 (proj2 (proj2
           (import_section_one_line_per_path (fun _ => "") [])))) "Stack").
  vm_compute. tauto.
Defined.

(** C7, as stated, fails on the tree of a frame without layout that holds
    a text and a button, whose import section is three lines, for "Box",
    "@salt-ds/core/Text" and "@salt-ds/core/Button".  If the source module
    is the import path and the scope is "@salt-ds", the symbol after the
    scope is "core" and the line shows "Text"; if the source module is the
    package "@salt-ds/core", two of the lines are for one module; and if
    the symbol is the segment after "@salt-ds/core", the path "Box" has
    none and the line shows "Box". *)
Lemma import_section_not_as_specified :
  let components := mapToSaltComponents (mkFigmaData unstyled_frame) in
  let lines := import_lines (fun _ => "6") components in
  lines = [ "import { Box } from 'Box';";
            "import { Text } from '@salt-ds/core/Text';";
            "import { Button } from '@salt-ds/core/Button';" ]
  /\ ~ PromptSpec.as_specified PromptSpec.module_A PromptSpec.symbol_A lines components
  /\ ~ PromptSpec.as_specified PromptSpec.module_B PromptSpec.symbol_B lines components
  /\ ~ PromptSpec.as_specified PromptSpec.module_A PromptSpec.symbol_B lines components.
Proof.
  cbv zeta. split; [reflexivity|split; [|split]].
  - intros [_ Hsym].
    assert (H : displayed_symbol "@salt-ds/core/Text"
                = PromptSpec.symbol_A "@salt-ds/core/Text").
    { apply Hsym. vm_compute. tauto. }
    vm_compute in H. discriminate.
  - intros [Hlen _]. vm_compute in Hlen. discriminate.
  - intros [_ Hsym].
    assert (H : displayed_symbol "Box" = PromptSpec.symbol_B "Box").
    { apply Hsym. vm_compute. tauto. }
    vm_compute in H. discriminate.
Qed.

(** ** The example cache *)

Import LLMCodeGenerator.

Section ExampleCache.

Variable remote : Remote.

Lemma fetch_step_eq examples st type :
  fetch_step remote (examples, st) type =
  match exampleCache st !! type with
  | Some cached => (examples ++ [cached], st)
  | None =>
      match fetched remote type with
      | Some example =>
          (examples ++ [example],
           mkState (<[type := example]> (exampleCache st)) (posted st ++ [type]) (warned st))
      | None =>
          (examples, mkState (exampleCache st) (posted st ++ [type]) (warned st))
      end
  end.
Proof.
  unfold fetch_step, fetchExampleFromQnA, fetched.
  destruct (exampleCache st !! type); [reflexivity|].
  destruct (remote type) as [|[answer|]]; reflexivity.
Qed.

Lemma fetched_not_empty type e : fetched remote type = Some e ->
  remote type = Reply (Some e) /\ e <> "".
Proof.
  unfold fetched. destruct (remote type) as [|[answer|]]; try discriminate.
  simpl. destruct (String.eqb answer "") eqn:E; simpl; [discriminate|].
  intros [= ->]. split; [reflexivity|]. by apply String.eqb_neq.
Qed.

Lemma no_example_fetched type : no_example (remote type) = true <-> fetched remote type = None.
Proof.
  unfold no_example, fetched. destruct (remote type) as [|[answer|]]; simpl; try tauto.
  destruct (String.eqb answer ""); simpl; split; congruence.
Qed.

(** The cache after one step agrees with the cache before it on what every
    type ends up with. *)
Lemma entry_after_step examples st type ty :
  entry remote (exampleCache (snd (fetch_step remote (examples, st) type))) ty =
  entry remote (exampleCache st) ty.
Proof.
  rewrite fetch_step_eq.
  destruct (exampleCache st !! type) eqn:Hc; [reflexivity|].
  destruct (fetched remote type) as [e|] eqn:Hf; [|reflexivity].
  unfold entry. simpl. destruct (decide (type = ty)) as [->|Hne].
  - by rewrite lookup_insert_eq, Hc, Hf.
  - by rewrite lookup_insert_ne.
Qed.

Lemma omap_pointwise {A B} (f g : A -> option B) (l : list A) :
  (forall x, f x = g x) -> omap f l = omap g l.
Proof.
  intros Hfg. induction l as [|x l IH]; csimpl; [reflexivity|].
  by rewrite Hfg, IH.
Qed.

Lemma fetch_fold_examples types : forall examples st,
  fst (fold_left (fetch_step remote) types (examples, st)) =
  examples ++ omap (entry remote (exampleCache st)) types.
Proof.
  induction types as [|type types IH]; intros examples st; cbn [fold_left].
  - by rewrite app_nil_r.
  - pose proof (entry_after_step examples st type) as Hentry.
    destruct (fetch_step remote (examples, st) type) as [examples1 st1] eqn:Hstep.
    cbn [snd] in Hentry. rewrite IH, (omap_pointwise _ _ types Hentry).
    rewrite fetch_step_eq in Hstep. csimpl. unfold entry at 2.
    destruct (exampleCache st !! type) as [cached|].
    + injection Hstep as <- <-. by rewrite <- List.app_assoc.
    + destruct (fetched remote type) as [e|].
      * injection Hstep as <- <-. by rewrite <- List.app_assoc.
      * injection Hstep as <- <-. reflexivity.
Qed.

Lemma fetch_fold_warned types : forall examples st,
  warned (snd (fold_left (fetch_step remote) types (examples, st))) = warned st.
Proof.
  induction types as [|type types IH]; intros examples st; cbn [fold_left]; [reflexivity|].
  destruct (fetch_step remote (examples, st) type) as [examples1 st1] eqn:Hstep.
  rewrite IH. rewrite fetch_step_eq in Hstep.
  destruct (exampleCache st !! type); [by injection Hstep as <- <-|].
  destruct (fetched remote type); by injection Hstep as <- <-.
Qed.

Lemma cache_after_step examples st type ty :
  exampleCache (snd (fetch_step remote (examples, st) type)) !! ty =
  if decide (type = ty) then entry remote (exampleCache st) ty else exampleCache st !! ty.
Proof.
  rewrite fetch_step_eq. unfold entry.
  destruct (decide (type = ty)) as [->|Hne].
  - destruct (exampleCache st !! ty) as [cached|] eqn:Hc; [exact Hc|].
    destruct (fetched remote ty) as [e|]; simpl; [apply lookup_insert_eq | exact Hc].
  - destruct (exampleCache st !! type); [reflexivity|].
    destruct (fetched remote type); simpl; [by apply lookup_insert_ne | reflexivity].
Qed.

Lemma fetch_fold_cache_out types : forall examples st ty,
  ~ In ty types ->
  exampleCache (snd (fold_left (fetch_step remote) types (examples, st))) !! ty =
  exampleCache st !! ty.
Proof.
  induction types as [|type types IH]; intros examples st ty Hout; cbn [fold_left]; [reflexivity|].
  pose proof (cache_after_step examples st type ty) as Hstep.
  destruct (fetch_step remote (examples, st) type) as [examples1 st1].
  rewrite IH by (intros H; apply Hout; by right).
  simpl in Hstep. rewrite Hstep.
  destruct (decide (type = ty)) as [->|_]; [|reflexivity].
  exfalso. apply Hout. by left.
Qed.

Lemma fetch_fold_cache_in types : forall examples st ty,
  In ty types ->
  exampleCache (snd (fold_left (fetch_step remote) types (examples, st))) !! ty =
  entry remote (exampleCache st) ty.
Proof.
  induction types as [|type types IH]; intros examples st ty Hin; cbn [fold_left]; [destruct Hin|].
  pose proof (cache_after_step examples st type ty) as Hstep.
  pose proof (entry_after_step examples st type ty) as Hentry.
  destruct (fetch_step remote (examples, st) type) as [examples1 st1].
  simpl in Hstep, Hentry.
  destruct (in_dec string_dec ty types) as [Htail|Htail].
  - by rewrite IH, Hentry.
  - rewrite fetch_fold_cache_out by exact Htail.
    destruct Hin as [->|Hin]; [|contradiction].
    rewrite Hstep. by destruct (decide (ty = ty)).
Qed.

Lemma fetch_fold_posted types : forall examples st,
  NoDup types ->
  posted (snd (fold_left (fetch_step remote) types (examples, st))) =
  posted st ++ List.filter (uncached (exampleCache st)) types.
Proof.
  induction types as [|type types IH]; intros examples st Hnd; cbn [fold_left List.filter].
  - by rewrite app_nil_r.
  - apply NoDup_cons in Hnd as [Hfresh Hnd].
    assert (Hsame : forall ty, In ty types ->
              uncached (exampleCache (snd (fetch_step remote (examples, st) type))) ty
              = uncached (exampleCache st) ty).
    { intros ty Hty. unfold uncached. rewrite cache_after_step.
      destruct (decide (type = ty)) as [->|_]; [|reflexivity].
      exfalso. apply Hfresh. by apply list_elem_of_In. }
    pose proof (fetch_step_eq examples st type) as Hstep.
    destruct (fetch_step remote (examples, st) type) as [examples1 st1].
    simpl in Hsame. rewrite IH by exact Hnd.
    rewrite (List.filter_ext_in _ _ _ Hsame).
    unfold uncached at 2.
    destruct (exampleCache st !! type); [by injection Hstep as -> ->|].
    destruct (fetched remote type); injection Hstep as -> ->; simpl;
      by rewrite <- app_assoc.
Qed.

End ExampleCache.

Section SetFilter.

Variable p : string -> bool.

Lemma existsb_filter x (s : list string) :
  p x = true ->
  existsb (String.eqb x) (List.filter p s) = existsb (String.eqb x) s.
Proof.
  intros Hx. induction s as [|y s IH]; simpl; [reflexivity|].
  destruct (p y) eqn:Hy; simpl; rewrite IH; [reflexivity|].
  destruct (String.eqb x y) eqn:E; [|reflexivity].
  apply String.eqb_eq in E. congruence.
Qed.

Lemma set_add_filter x (s : list string) :
  List.filter p (JS.set_add x s) =
  if p x then JS.set_add x (List.filter p s) else List.filter p s.
Proof.
  unfold JS.set_add. destruct (p x) eqn:Hx.
  - rewrite (existsb_filter _ _ Hx).
    destruct (existsb (String.eqb x) s); [reflexivity|].
    rewrite List.filter_app. simpl. by rewrite Hx.
  - destruct (existsb (String.eqb x) s); [reflexivity|].
    rewrite List.filter_app. simpl. by rewrite Hx, app_nil_r.
Qed.

Lemma fold_set_add_filter xs : forall s,
  fold_left (fun s x => JS.set_add x s) (List.filter p xs) (List.filter p s) =
  List.filter p (fold_left (fun s x => JS.set_add x s) xs s).
Proof.
  induction xs as [|x xs IH]; intros s; simpl; [reflexivity|].
  rewrite <- IH, set_add_filter. by destruct (p x).
Qed.

Lemma new_Set_filter xs :
  JS.new_Set (List.filter p xs) = List.filter p (JS.new_Set xs).
Proof. unfold JS.new_Set. by rewrite <- fold_set_add_filter. Qed.

Lemma map_type_filter (cs : list SaltComponent) :
  map sc_type (List.filter (fun c => p (sc_type c)) cs) = List.filter p (map sc_type cs).
Proof.
  induction cs as [|c cs IH]; simpl; [reflexivity|].
  destruct (p (sc_type c)); simpl; by rewrite IH.
Qed.

Lemma omap_filter {B} (f : string -> option B) (l : list string) :
  (forall x, p x = false -> f x = None) ->
  omap f (List.filter p l) = omap f l.
Proof.
  intros Hf. induction l as [|x l IH]; simpl; [reflexivity|].
  destruct (p x) eqn:Hx; csimpl; [by rewrite IH|].
  by rewrite (Hf x Hx), IH.
Qed.

End SetFilter.

Lemma fetchRelevantExamples_examples remote components st :
  fst (fetchRelevantExamples remote components st) =
  omap (entry remote (exampleCache st)) (JS.new_Set (map sc_type components)).
Proof. unfold fetchRelevantExamples. by rewrite fetch_fold_examples. Qed.

Lemma fetchRelevantExamples_posted remote components st :
  posted_since st (snd (fetchRelevantExamples remote components st)) =
  List.filter (uncached (exampleCache st)) (JS.new_Set (map sc_type components)).
Proof.
  unfold fetchRelevantExamples, posted_since.
  rewrite fetch_fold_posted by apply new_Set_NoDup.
  apply drop_app_length.
Qed.

Lemma fetchRelevantExamples_cache remote components st ty :
  exampleCache (snd (fetchRelevantExamples remote components st)) !! ty =
  if in_dec string_dec ty (map sc_type components)
  then entry remote (exampleCache st) ty
  else exampleCache st !! ty.
Proof.
  unfold fetchRelevantExamples.
  destruct (in_dec string_dec ty (map sc_type components)) as [Hin|Hout].
  - apply fetch_fold_cache_in. by apply new_Set_In.
  - apply fetch_fold_cache_out. by rewrite new_Set_In.
Qed.

(** C9.  A lookup that fails or comes back empty is not fatal: the call
    returns, the examples are those of the call without that type, nothing
    is warned and nothing is cached for the type.  Only non-empty answers
    are written to the cache.  So in a second call that asks for the same
    type the type is posted again after a failure, and is served from the
    cache, without a post, after a success. *)
Theorem example_cache_holds_successes_only :
  forall remote1 remote2 components1 components2 st type,
    In type (map sc_type components1) ->
    In type (map sc_type components2) ->
    exampleCache st !! type = None ->
    let first := fetchRelevantExamples remote1 components1 st in
    let second := fetchRelevantExamples remote2 components2 (snd first) in
    warned (snd first) = warned st
    /\ warned (snd second) = warned st
    /\ (forall ty e,
          exampleCache (snd first) !! ty = Some e ->
          exampleCache st !! ty = Some e \/ (remote1 ty = Reply (Some e) /\ e <> ""))
    /\ (no_example (remote1 type) = true ->
          fst first =
            fst (fetchRelevantExamples remote1
                   (List.filter (fun c => negb (String.eqb type (sc_type c))) components1) st)
          /\ exampleCache (snd first) !! type = None
          /\ In type (posted_since (snd first) (snd second)))
    /\ (forall e,
          remote1 type = Reply (Some e) -> e <> "" ->
          exampleCache (snd first) !! type = Some e
          /\ In e (fst first)
          /\ In e (fst second)
          /\ ~ In type (posted_since (snd first) (snd second))).
Proof.
  intros remote1 remote2 components1 components2 st type Hin1 Hin2 Hfresh first second.
  assert (Hcache : exampleCache (snd first) !! type = entry remote1 (exampleCache st) type).
  { subst first. rewrite fetchRelevantExamples_cache.
    by destruct (in_dec string_dec type (map sc_type components1)). }
  unfold entry in Hcache. rewrite Hfresh in Hcache.
  split; [|split; [|split; [|split]]].
  - apply fetch_fold_warned.
  - subst second. unfold fetchRelevantExamples at 1. rewrite fetch_fold_warned.
    apply fetch_fold_warned.
  - intros ty e Hty. subst first. rewrite fetchRelevantExamples_cache in Hty.
    destruct (in_dec string_dec ty (map sc_type components1)); [|by left].
    unfold entry in Hty. destruct (exampleCache st !! ty); [by left|].
    right. by apply fetched_not_empty.
  - intros Hfail. apply no_example_fetched in Hfail. rewrite Hfail in Hcache.
    split; [|split].
    + subst first. rewrite !fetchRelevantExamples_examples.
      rewrite (map_type_filter (fun ty => negb (String.eqb type ty))), new_Set_filter.
      symmetry. apply omap_filter. intros x Hx.
      apply negb_false_iff, String.eqb_eq in Hx. subst x.
      unfold entry. by rewrite Hfresh.
    + exact Hcache.
    + subst second. rewrite fetchRelevantExamples_posted.
      apply filter_In. split; [by apply new_Set_In|].
      unfold uncached. by rewrite Hcache.
  - intros e Hreply Hne.
    assert (Hfetched : fetched remote1 type = Some e).
    { unfold fetched. rewrite Hreply. simpl.
      apply String.eqb_neq in Hne. by rewrite Hne. }
    rewrite Hfetched in Hcache.
    split; [exact Hcache|split; [|split]].
    + subst first. rewrite fetchRelevantExamples_examples.
      apply list_elem_of_In, list_elem_of_omap. exists type. split.
      * by apply list_elem_of_In, new_Set_In.
      * unfold entry. by rewrite Hfresh.
    + subst second. rewrite fetchRelevantExamples_examples.
      apply list_elem_of_In, list_elem_of_omap. exists type. split.
      * by apply list_elem_of_In, new_Set_In.
      * unfold entry. by rewrite Hcache.
    + subst second. rewrite fetchRelevantExamples_posted.
      intros Hposted. apply filter_In in Hposted as [_ Hun].
      unfold uncached in Hun. by rewrite Hcache in Hun.
Qed.

Lemma example_cache_holds_successes_only_witness :
  let components :=
    [ {| sc_type := "Button"; sc_import := "@salt-ds/core/Button"; sc_props := [];
         sc_children := []; sc_content := None |} ] in
  let st := mkState ∅ [] [] in
  let first := fetchRelevantExamples (fun _ => PostFails) components st in
  let second := fetchRelevantExamples (fun _ => Reply (Some "<Button />")) components
                  (snd first) in
  fst first = [] /\ exampleCache (snd first) !! "Button" = None
  /\ In "Button" (posted_since (snd first) (snd second)).
Proof.
  intros components st first second.
  assert (Hin : In "Button" (map sc_type components)) by (left; reflexivity).
  assert (Hfresh : exampleCache st !! "Button" = None) by apply lookup_empty.
  destruct (example_cache_holds_successes_only
              (fun _ => PostFails) (fun _ => Reply (Some "<Button />"))
              components components st "Button" Hin Hin Hfresh)
    as (_ & _ & _ & Hfail & _).
  destruct (Hfail eq_refl) as (Hexamples & Hcache & Hretry).
  split; [exact Hexamples | split; [exact Hcache | exact Hretry]].
Defined.

(** ** The helpers of the implementation guide

    The Input and Text rules as the specification words them are the ones
    of the guide's mapper. *)

Lemma guide_placeholder_keywords node n :
  node_name node = Some n ->
  let name := JS.toLowerCase n in
  (JS.includes name "email" = true ->
   SaltMapperGuide.extractPlaceholder node = Some "Enter email address")
  /\ (JS.includes name "email" = false -> JS.includes name "password" = true ->
      SaltMapperGuide.extractPlaceholder node = Some "Enter password")
  /\ (JS.includes name "email" = false -> JS.includes name "password" = false ->
      JS.includes name "search" = true ->
      SaltMapperGuide.extractPlaceholder node = Some "Search...")
  /\ (JS.includes name "email" = false -> JS.includes name "password" = false ->
      JS.includes name "search" = false -> JS.includes name "name" = true ->
      SaltMapperGuide.extractPlaceholder node = Some "Enter your name")
  /\ (JS.includes name "email" = false -> JS.includes name "password" = false ->
      JS.includes name "search" = false -> JS.includes name "name" = false ->
      node_children node = [] ->
      SaltMapperGuide.extractPlaceholder node = Some "Enter text...").
Proof.
  intros Hn name. unfold SaltMapperGuide.extractPlaceholder. rewrite Hn. fold name.
  repeat split; intros; repeat match goal with H : _ = _ |- _ => rewrite H end; reflexivity.
Qed.

Lemma guide_text_style_tiers style q :
  style_fontSize style = Some q -> ~ (q == 0)%Q ->
  ((32 <= q)%Q -> SaltMapperGuide.mapTextStyle style = "h1")
  /\ ((24 <= q)%Q -> (q < 32)%Q -> SaltMapperGuide.mapTextStyle style = "h2")
  /\ ((20 <= q)%Q -> (q < 24)%Q -> SaltMapperGuide.mapTextStyle style = "h3")
  /\ ((18 <= q)%Q -> (q < 20)%Q -> SaltMapperGuide.mapTextStyle style = "h4")
  /\ ((q < 18)%Q -> SaltMapperGuide.mapTextStyle style = "body").
Proof.
  intros Hq Hnz. unfold SaltMapperGuide.mapTextStyle. rewrite Hq.
  assert (Ht : JS.truthy_number (Some q) = true).
  { simpl. destruct (Qeq_bool q 0) eqn:E; [|reflexivity].
    apply Qeq_bool_iff in E. contradiction. }
  rewrite Ht.
  repeat split; intros;
    repeat match goal with
      | |- context [Qle_bool ?a ?b] =>
          let E := fresh "E" in
          destruct (Qle_bool a b) eqn:E;
          [apply Qle_bool_iff in E | apply Qle_bool_false in E]
      end; try reflexivity; lra.
Qed.

(** The Stack root of the scenario comes from the layout descriptor: the
    same frame without one maps to a Box root with the same two children. *)
Example frame_without_layout_is_a_box :
  map (fun c => (sc_type c, map sc_type (sc_children c)))
    (mapToSaltComponents (mkFigmaData unstyled_frame))
  = [("Box", ["Text"; "Button"])].
Proof. reflexivity. Qed.

(** * Further properties *)

(** ** The tree mapper, node by node *)

Lemma map_flat_map {A B C} (f : B -> C) (g : A -> list B) (l : list A) :
  map f (flat_map g l) = flat_map (fun x => map f (g x)) l.
Proof.
  induction l as [|x l IH]; simpl; [reflexivity|]. by rewrite map_app, IH.
Qed.

Lemma omap_app_list {A B} (f : A -> option B) (l k : list A) :
  omap f (l ++ k) = omap f l ++ omap f k.
Proof.
  induction l as [|x l IH]; csimpl; [reflexivity|].
  destruct (f x); simpl; by rewrite IH.
Qed.

Lemma omap_flat_map {A B C} (f : B -> option C) (g : A -> list B) (l : list A) :
  omap f (flat_map g l) = flat_map (fun x => omap f (g x)) l.
Proof.
  induction l as [|x l IH]; simpl; [reflexivity|]. by rewrite omap_app_list, IH.
Qed.

Lemma flat_map_Forall_ext {A B} (f g : A -> list B) (l : list A) :
  Forall (fun x => f x = g x) l -> flat_map f l = flat_map g l.
Proof.
  induction 1 as [|x l Hx _ IH]; simpl; [reflexivity|]. by rewrite Hx, IH.
Qed.

Lemma flat_map_flat_map {A B C} (f : B -> list C) (g : A -> list B) (l : list A) :
  flat_map f (flat_map g l) = flat_map (fun x => flat_map f (g x)) l.
Proof.
  induction l as [|x l IH]; simpl; [reflexivity|]. by rewrite flat_map_app, IH.
Qed.

Lemma design_nodes_unfold node :
  design_nodes node = node :: flat_map design_nodes (node_children node).
Proof. destruct node; reflexivity. Qed.

Lemma all_nodes_unfold c :
  all_nodes c = c :: flat_map all_nodes (sc_children c).
Proof. destruct c; reflexivity. Qed.

Lemma mapped_forest_preorder node :
  map (fun c => with_children c []) (forest_nodes (mapped_forest node)) =
  omap createSaltComponent (design_nodes node).
Proof.
  induction node as [node IH] using FigmaNode_tree_ind.
  assert (Hkids :
    map (fun c => with_children c [])
      (forest_nodes (flat_map mapped_forest (node_children node))) =
    omap createSaltComponent (flat_map design_nodes (node_children node))).
  { unfold forest_nodes. rewrite flat_map_flat_map, map_flat_map, omap_flat_map.
    apply flat_map_Forall_ext. exact IH. }
  rewrite mapped_forest_unfold, design_nodes_unfold. csimpl.
  destruct (createSaltComponent node) as [c|] eqn:Hc; [|exact Hkids].
  unfold forest_nodes. simpl. rewrite app_nil_r.
  unfold forest_nodes in Hkids. rewrite <- Hkids. f_equal.
  rewrite <- (createSaltComponent_children _ _ Hc). by destruct c.
Qed.

(** X1.  The nodes of the mapped tree, taken in pre-order and without their
    children, are the components created for the classified design nodes,
    in the pre-order of the design tree: no classified node is lost,
    duplicated or reordered, and no other node appears. *)
Theorem mapped_nodes_follow_design_preorder :
  forall figmaData,
    map (fun c => with_children c []) (forest_nodes (mapToSaltComponents figmaData)) =
      omap createSaltComponent (design_nodes (structure figmaData))
    /\ map sc_type (forest_nodes (mapToSaltComponents figmaData)) =
      omap detectComponentType (design_nodes (structure figmaData))
    /\ length (forest_nodes (mapToSaltComponents figmaData))
       <= length (design_nodes (structure figmaData)).
Proof.
  intros figmaData.
  assert (H1 : map (fun c => with_children c [])
                 (forest_nodes (mapToSaltComponents figmaData)) =
               omap createSaltComponent (design_nodes (structure figmaData))).
  { unfold mapToSaltComponents. rewrite processNode_forest. simpl.
    apply mapped_forest_preorder. }
  assert (H2 : map sc_type (forest_nodes (mapToSaltComponents figmaData)) =
               omap detectComponentType (design_nodes (structure figmaData))).
  { transitivity (map sc_type (map (fun c => with_children c [])
                                 (forest_nodes (mapToSaltComponents figmaData)))).
    - rewrite map_map. reflexivity.
    - rewrite H1. generalize (design_nodes (structure figmaData)). intros l.
      induction l as [|n l IH]; csimpl; [reflexivity|].
      unfold createSaltComponent at 1.
      destruct (detectComponentType n); simpl; by rewrite IH. }
  split; [exact H1|split; [exact H2|]].
  rewrite <- (length_map sc_type), H2.
  generalize (design_nodes (structure figmaData)). intros l.
  induction l as [|n l IH]; csimpl; [lia|].
  destruct (detectComponentType n); simpl; lia.
Qed.

(** ** The classifier without a name hint *)

Lemma detect_by_hint node :
  detectComponentType node =
  match name_hint node with
  | Some k => Some k
  | None => infer_from_type node
  end.
Proof. reflexivity. Qed.

Lemma first_hint_None lowered keys :
  first_hint lowered keys = None ->
  forall k, In k keys -> JS.includes lowered (JS.toLowerCase k) = false.
Proof.
  induction keys as [|k0 keys IH]; simpl; [intros _ k []|].
  destruct (JS.includes lowered (JS.toLowerCase k0)) eqn:E; [discriminate|].
  intros H k [<-|Hin]; [exact E | by apply IH].
Qed.

(** Without a name hint the lower-cased name contains no catalog name. *)
Lemma no_hint_no_catalog_name node k :
  name_hint node = None -> In k catalog_keys ->
  name_includes (node_name node) (JS.toLowerCase k) = false.
Proof.
  unfold name_hint, name_includes. intros Hhint Hk.
  destruct (node_name node) as [n|]; [|reflexivity].
  destruct (JS.truthy_string (Some n)) eqn:Ht.
  - by apply (first_hint_None _ _ Hhint).
  - destruct n; [|discriminate]. change (JS.toLowerCase "") with "".
    destruct (JS.includes "" (JS.toLowerCase k)) eqn:E; [|reflexivity].
    apply includes_empty in E. by apply catalog_key_not_empty in Hk.
Qed.

Ltac catalog_member := unfold catalog_keys; simpl; tauto.

(** X2.  A node whose name contains no catalog name is classified by its
    kind alone: a text node is a Text; a frame is a Stack, a Flex, a Card or
    a Box by its layout mode and corner radius; a rectangle is a Card or a
    Box by its corner radius and is never a Button; a node of any kind but
    text, frame, rectangle, component and instance is not mapped. *)
Theorem kind_decides_without_name_hint :
  forall node,
    name_hint node = None ->
    (node_type node = "TEXT" -> detectComponentType node = Some "Text")
    /\ (node_type node = "FRAME" ->
        detectComponentType node =
        Some (if layout_mode_is node "VERTICAL" then "Stack"
              else if layout_mode_is node "HORIZONTAL" then "Flex"
              else if JS.gt (node_cornerRadius node) 0 then "Card"
              else "Box"))
    /\ (node_type node = "RECTANGLE" ->
        detectComponentType node =
        Some (if JS.gt (node_cornerRadius node) 0 then "Card" else "Box"))
    /\ (~ In (node_type node) ["TEXT"; "FRAME"; "RECTANGLE"; "COMPONENT"; "INSTANCE"] ->
        detectComponentType node = None).
Proof.
  intros node Hhint. rewrite detect_by_hint, Hhint. unfold infer_from_type.
  split; [|split; [|split]].
  - intros ->. reflexivity.
  - intros ->. simpl.
    destruct (layout_mode_is node "VERTICAL"); [reflexivity|].
    destruct (layout_mode_is node "HORIZONTAL"); [reflexivity|].
    destruct (JS.gt (node_cornerRadius node) 0); reflexivity.
  - intros ->. simpl.
    pose proof (no_hint_no_catalog_name node "Button" Hhint ltac:(catalog_member)) as Hb.
    change (JS.toLowerCase "Button") with "button" in Hb. rewrite Hb.
    destruct (JS.gt (node_cornerRadius node) 0); reflexivity.
  - intros Hkind.
    repeat match goal with
           | |- context [String.eqb (node_type node) ?k] =>
               destruct (String.eqb_spec (node_type node) k) as [e|_];
               [exfalso; apply Hkind; rewrite e; simpl; tauto|]
           end.
    reflexivity.
Qed.

Lemma kind_decides_without_name_hint_witness :
  detectComponentType (plain_node (Some "Hero") "RECTANGLE" None []) =
  Some (if JS.gt (node_cornerRadius (plain_node (Some "Hero") "RECTANGLE" None [])) 0
        then "Card" else "Box").
Proof.
  apply (proj1 (proj2 (proj2 (kind_decides_without_name_hint
                                (plain_node (Some "Hero") "RECTANGLE" None [])
                                eq_refl)))).
  reflexivity.
Defined.

(** X3.  For a component or instance node whose name contains no catalog
    name, only the keywords outside the catalog decide: "btn" or "cta" give
    a Button, "field" an Input, "select" a Dropdown, "tile" a Card and
    "modal" a Dialog, in this order; any other name, and a missing name,
    leaves the node unmapped. *)
Theorem instance_keywords_without_name_hint :
  forall node,
    name_hint node = None ->
    node_type node = "COMPONENT" \/ node_type node = "INSTANCE" ->
    detectComponentType node =
    let name := node_name node in
    if name_includes name "btn" || name_includes name "cta" then Some "Button"
    else if name_includes name "field" then Some "Input"
    else if name_includes name "select" then Some "Dropdown"
    else if name_includes name "tile" then Some "Card"
    else if name_includes name "modal" then Some "Dialog"
    else None.
Proof.
  intros node Hhint Hkind. rewrite detect_by_hint, Hhint.
  pose proof (no_hint_no_catalog_name node "Input" Hhint ltac:(catalog_member)) as Hinput.
  pose proof (no_hint_no_catalog_name node "Dropdown" Hhint ltac:(catalog_member)) as Hdrop.
  pose proof (no_hint_no_catalog_name node "Card" Hhint ltac:(catalog_member)) as Hcard.
  pose proof (no_hint_no_catalog_name node "Dialog" Hhint ltac:(catalog_member)) as Hdialog.
  assert (Hinfer : infer_from_type node = matchComponentName (node_name node)).
  { unfold infer_from_type. destruct Hkind as [-> | ->]; reflexivity. }
  rewrite Hinfer. clear Hinfer Hkind.
  unfold name_hint in Hhint. unfold matchComponentName, name_includes in *.
  destruct (node_name node) as [n|]; [|reflexivity].
  destruct (String.eqb_spec n "") as [->|Hne]; [reflexivity|].
  assert (Ht : JS.truthy_string (Some n) = true).
  { simpl. apply String.eqb_neq in Hne. by rewrite Hne. }
  rewrite Ht in Hhint. rewrite Hhint.
  change (JS.toLowerCase "Input") with "input" in Hinput.
  change (JS.toLowerCase "Dropdown") with "dropdown" in Hdrop.
  change (JS.toLowerCase "Card") with "card" in Hcard.
  change (JS.toLowerCase "Dialog") with "dialog" in Hdialog.
  rewrite Hinput, Hdrop, Hcard, Hdialog. cbn [orb].
  rewrite !orb_false_r. reflexivity.
Qed.

Lemma instance_keywords_without_name_hint_witness :
  detectComponentType (plain_node (Some "Hero tile") "INSTANCE" None []) = Some "Card".
Proof.
  apply (instance_keywords_without_name_hint
           (plain_node (Some "Hero tile") "INSTANCE" None []) eq_refl).
  right. reflexivity.
Defined.

(** ** The prop extractor, prop by prop *)

Lemma get_set_prop_eq k v ps : get_prop k (set_prop k v ps) = Some v.
Proof.
  induction ps as [|[k' v'] ps IH]; simpl.
  - by rewrite String.eqb_refl.
  - destruct (String.eqb k' k) eqn:E; simpl.
    + by rewrite String.eqb_refl.
    + by rewrite E.
Qed.

Lemma get_set_prop_ne k k' v ps :
  k <> k' -> get_prop k (set_prop k' v ps) = get_prop k ps.
Proof.
  intros Hne. induction ps as [|[k0 v0] ps IH]; simpl.
  - apply not_eq_sym, String.eqb_neq in Hne. by rewrite Hne.
  - destruct (String.eqb_spec k0 k') as [->|Hk0]; simpl.
    + apply not_eq_sym, String.eqb_neq in Hne. by rewrite Hne.
    + destruct (String.eqb k0 k); [reflexivity | exact IH].
Qed.

Lemma get_assign_style k ps style :
  k <> "fontSize" -> k <> "fontWeight" -> k <> "textAlign" ->
  get_prop k (assign ps (extractStyleProps style)) = get_prop k ps.
Proof.
  intros H1 H2 H3. unfold extractStyleProps, assign.
  destruct style as [[fs|] [fw|] [ta|]]; simpl;
    repeat match goal with
           | |- context [if ?b then _ else _] => destruct b; simpl
           end;
    repeat (rewrite get_set_prop_ne by assumption); reflexivity.
Qed.

Lemma get_with_style k ps (style : option TextStyle) :
  k <> "fontSize" -> k <> "fontWeight" -> k <> "textAlign" ->
  get_prop k match style with
             | Some st => assign ps (extractStyleProps st)
             | None => ps
             end = get_prop k ps.
Proof. intros. destruct style; [by apply get_assign_style | reflexivity]. Qed.

Ltac props_lookup :=
  repeat first
    [ rewrite get_set_prop_eq
    | rewrite get_set_prop_ne by discriminate ].

(** X4.  Every mapped node, whatever its component type, carries hidden =
    true exactly when the design node is marked not visible; a node that is
    visible, or says nothing about it, has no hidden prop. *)
Theorem hidden_iff_not_visible :
  forall node componentType,
    get_prop "hidden" (extractProps node componentType) =
    match node_visible node with
    | Some false => Some (VBool true)
    | _ => None
    end.
Proof.
  intros node componentType. unfold extractProps. cbv zeta.
  rewrite get_with_style by discriminate.
  destruct (node_visible node) as [[|]|];
    repeat match goal with
           | |- context [if ?b then _ else _] => destruct b
           | |- context [match ?o with Some _ => _ | None => _ end] => destruct o
           end; props_lookup; reflexivity.
Qed.

(** X5.  A Button always gets a variant among primary, secondary and ghost
    and a size among small, medium and large.  A fill colour on the first
    fill makes the variant primary whatever the name says, and a name with
    "small" makes the size small whatever the height is. *)
Theorem button_variant_and_size :
  forall node,
    get_prop "variant" (extractProps node "Button") = Some (VStr (detectButtonVariant node))
    /\ get_prop "size" (extractProps node "Button") = Some (VStr (detectSize node))
    /\ In (detectButtonVariant node) ["primary"; "secondary"; "ghost"]
    /\ In (detectSize node) ["small"; "medium"; "large"]
    /\ (has_fill_color node = true -> detectButtonVariant node = "primary")
    /\ (name_includes (node_name node) "small" = true -> detectSize node = "small").
Proof.
  intros node. repeat split.
  - unfold extractProps. rewrite get_with_style by discriminate. simpl.
    destruct (name_includes (node_name node) "disabled"); props_lookup; reflexivity.
  - unfold extractProps. rewrite get_with_style by discriminate. simpl.
    destruct (name_includes (node_name node) "disabled"); props_lookup; reflexivity.
  - unfold detectButtonVariant.
    repeat match goal with
           | |- context [if ?b then _ else _] => destruct b
           end; simpl; tauto.
  - unfold detectSize.
    repeat match goal with
           | |- context [if ?b then _ else _] => destruct b
           end; simpl; tauto.
  - unfold has_fill_color, detectButtonVariant. intros ->.
    by rewrite orb_true_r.
  - unfold name_includes, detectSize.
    destruct (node_name node) as [n|]; [|discriminate]. by intros ->.
Qed.

Lemma button_variant_and_size_witness :
  detectButtonVariant
    (mkFigmaNode (Some "Secondary button") "RECTANGLE" None None None None
       [mkFill (Some (1, 0, 0)%Q) None] SpUndefined None None [])
  = "primary".
Proof.
  apply (proj1 (proj2 (proj2 (proj2 (proj2 (button_variant_and_size
    (mkFigmaNode (Some "Secondary button") "RECTANGLE" None None None None
       [mkFill (Some (1, 0, 0)%Q) None] SpUndefined None None []))))))).
  reflexivity.
Defined.

(** ** Spacing and alignment of containers *)

Section SpacingArguments.

Local Open Scope Q_scope.

Lemma add_NaN_r x : JS.add x JS.NaN = JS.NaN.
Proof. by destruct x. Qed.

Lemma mapSpacing_NaN value : spacing_number value = JS.NaN -> mapSpacing value = 6.
Proof. unfold mapSpacing. by intros ->. Qed.

Lemma mapSpacing_range value : In (mapSpacing value) [1; 2; 3; 4; 5; 6].
Proof.
  unfold mapSpacing.
  repeat match goal with
         | |- context [if ?b then _ else _] => destruct b
         end; simpl; tauto.
Qed.

Lemma average_bounds t r b l lo hi :
  lo <= t <= hi -> lo <= r <= hi -> lo <= b <= hi -> lo <= l <= hi ->
  lo <= (t + r + b + l) / 4 <= hi.
Proof.
  intros Ht Hr Hb Hl. split.
  - apply Qle_shift_div_l; lra.
  - apply Qle_shift_div_r; lra.
Qed.

Lemma two_power_pos k : 0 < 2 ^ k.
Proof. apply Qpower_0_lt. reflexivity. Qed.

Lemma two_power_Z n : (0 <= n)%Z -> inject_Z (2 ^ n) == 2 ^ n.
Proof. intros H. by rewrite Zpower_Qpower. Qed.

Lemma ilog2_le a : 0 < a -> 2 ^ JS.ilog2 a <= a.
Proof.
  intros Ha. unfold JS.ilog2. cbv zeta.
  destruct (Qle_bool (2 ^ (Z.log2 (Qnum a) - Z.log2 (Z.pos (Qden a)))) a) eqn:E;
    [by apply Qle_bool_iff in E|]. clear E.
  destruct a as [n d]. cbn [Qnum Qden].
  assert (Hn : (0 < n)%Z).
  { unfold Qlt in Ha. simpl in Ha. lia. }
  pose proof (Z.log2_spec n Hn) as [Hlo _].
  pose proof (Z.log2_spec (Z.pos d) (Pos2Z.is_pos d)) as [_ Hhi].
  pose proof (Z.log2_nonneg n) as Hln.
  pose proof (Z.log2_nonneg (Z.pos d)) as Hld.
  set (ln := Z.log2 n) in *. set (ld := Z.log2 (Z.pos d)) in *.
  rewrite (Qmake_Qdiv n d).
  apply Qle_shift_div_l; [reflexivity|].
  apply Qle_trans with (2 ^ (ln - ld - 1) * 2 ^ (ld + 1)).
  - apply Qmult_le_l; [apply two_power_pos|].
    rewrite <- two_power_Z by lia. rewrite <- Zle_Qle. lia.
  - rewrite <- Qpower_plus by discriminate.
    replace (ln - ld - 1 + (ld + 1))%Z with ln by lia.
    rewrite <- two_power_Z by lia. by rewrite <- Zle_Qle.
Qed.

(** A positive number with a significand of at most 53 bits and an
    exponent in the range of the doubles is its own rounding. *)
Lemma round_dyadic x m k :
  x == inject_Z m * 2 ^ k -> (0 < m < 2 ^ 53)%Z -> (-1074 <= k <= 0)%Z ->
  exists v, JS.round x = JS.Finite v /\ v == x.
Proof.
  intros Hx Hm Hk.
  assert (Hpos : 0 < x).
  { rewrite Hx. apply Qmult_lt_0_compat; [|apply two_power_pos].
    replace 0 with (inject_Z 0) by reflexivity. rewrite <- Zlt_Qlt. lia. }
  assert (Hup : x < 2 ^ (53 + k)).
  { rewrite Hx, Qpower_plus by discriminate.
    apply Qmult_lt_compat_r; [apply two_power_pos|].
    rewrite <- two_power_Z by lia. rewrite <- Zlt_Qlt. lia. }
  unfold JS.round.
  destruct (Qeq_bool x 0) eqn:E0.
  { apply Qeq_bool_iff in E0. rewrite E0 in Hpos. discriminate. }
  cbv zeta.
  assert (Ha : Qabs x == x) by (apply Qabs_pos, Qlt_le_weak, Hpos).
  assert (He : (JS.ilog2 (Qabs x) < 53 + k)%Z).
  { apply Qpower_lt_compat_l_inv with (q := 2); [|reflexivity].
    apply Qle_lt_trans with x; [|exact Hup].
    rewrite <- Ha at 2. apply ilog2_le. by rewrite Ha. }
  set (p := Z.max (JS.ilog2 (Qabs x) - 52) (-1074)).
  assert (Hp : (p <= k)%Z) by lia.
  set (M := (m * 2 ^ (k - p))%Z).
  assert (Hs : Qabs x / 2 ^ p == inject_Z M).
  { unfold M. rewrite Ha, Hx, inject_Z_mult, two_power_Z by lia.
    replace k with (p + (k - p))%Z at 1 by lia.
    rewrite Qpower_plus by discriminate.
    field. intros H. pose proof (two_power_pos p) as H'. rewrite H in H'. discriminate. }
  assert (Hfloor : Qfloor (Qabs x / 2 ^ p) = M).
  { rewrite Hs. apply Qfloor_Z. }
  rewrite Hfloor.
  assert (Hr : Qabs x / 2 ^ p - inject_Z M == 0) by (rewrite Hs; ring).
  assert (Hle : Qle_bool (Qabs x / 2 ^ p - inject_Z M) (1 # 2) = true).
  { apply Qle_bool_iff. rewrite Hr. discriminate. }
  assert (Hne : Qeq_bool (Qabs x / 2 ^ p - inject_Z M) (1 # 2) = false).
  { destruct (Qeq_bool (Qabs x / 2 ^ p - inject_Z M) (1 # 2)) eqn:E; [|reflexivity].
    apply Qeq_bool_iff in E. rewrite Hr in E. discriminate. }
  rewrite Hle, Hne.
  assert (Hv : Qred (inject_Z M * 2 ^ p) == x).
  { rewrite Qred_correct, <- Hs, Ha.
    rewrite Qmult_comm. apply Qmult_div_r.
    intros H. pose proof (two_power_pos p) as H'. rewrite H in H'. discriminate. }
  assert (Hbig : Qle_bool (2 ^ 1024) (Qred (inject_Z M * 2 ^ p)) = false).
  { destruct (Qle_bool (2 ^ 1024) (Qred (inject_Z M * 2 ^ p))) eqn:E; [|reflexivity].
    apply Qle_bool_iff in E. rewrite Hv in E.
    assert (H : 2 ^ (53 + k) <= 2 ^ 1024).
    { apply Qpower_le_compat_l; [lia | discriminate]. }
    exfalso. apply (Qlt_irrefl x).
    eapply Qlt_le_trans; [exact Hup|]. eapply Qle_trans; [exact H | exact E]. }
  rewrite Hbig.
  assert (H0 : Qle_bool 0 x = true) by (apply Qle_bool_iff, Qlt_le_weak, Hpos).
  rewrite H0. eexists. split; [reflexivity | exact Hv].
Qed.

Lemma round_whole x z :
  x == inject_Z z -> (0 <= z < 2 ^ 53)%Z ->
  exists v, JS.round x = JS.Finite v /\ v == x.
Proof.
  intros Hx Hz. destruct (Z.eq_dec z 0%Z) as [-> | Hne].
  - assert (Hx0 : x == 0) by (rewrite Hx; reflexivity).
    exists 0. split; [|by rewrite Hx0].
    unfold JS.round. apply Qeq_bool_iff in Hx0. by rewrite Hx0.
  - apply (round_dyadic x z 0); [|lia|lia].
    rewrite Hx. change (2 ^ 0) with 1. by rewrite Qmult_1_r.
Qed.

Lemma round_quarter x z :
  x == inject_Z z / 4 -> (0 <= z < 2 ^ 53)%Z ->
  exists v, JS.round x = JS.Finite v /\ v == x.
Proof.
  intros Hx Hz. destruct (Z.eq_dec z 0%Z) as [-> | Hne].
  - assert (Hx0 : x == 0) by (rewrite Hx; reflexivity).
    exists 0. split; [|by rewrite Hx0].
    unfold JS.round. apply Qeq_bool_iff in Hx0. by rewrite Hx0.
  - apply (round_dyadic x z (-2)); [|lia|lia].
    rewrite Hx. reflexivity.
Qed.

(** The sum and the average of four whole numbers of at most [2^50] are
    computed without a rounding error. *)
Lemma whole_padding_average (t r b l : Z) :
  (0 <= t <= 2 ^ 50)%Z -> (0 <= r <= 2 ^ 50)%Z ->
  (0 <= b <= 2 ^ 50)%Z -> (0 <= l <= 2 ^ 50)%Z ->
  exists v,
    spacing_number (SpSides (Some (inject_Z t)) (Some (inject_Z r))
                      (Some (inject_Z b)) (Some (inject_Z l))) = JS.Finite v
    /\ v == inject_Z (t + r + b + l) / 4.
Proof.
  intros Ht Hr Hb Hl. unfold spacing_number. cbn [JS.operand JS.add].
  assert (H50 : (2 ^ 53 = 8 * 2 ^ 50)%Z) by reflexivity.
  destruct (round_whole (inject_Z t + inject_Z r) (t + r)) as (v1 & -> & H1);
    [by rewrite inject_Z_plus | lia |].
  cbn [JS.add].
  destruct (round_whole (v1 + inject_Z b) (t + r + b)) as (v2 & -> & H2);
    [by rewrite H1, !inject_Z_plus | lia |].
  cbn [JS.add].
  destruct (round_whole (v2 + inject_Z l) (t + r + b + l)) as (v3 & -> & H3);
    [by rewrite H2, H1, !inject_Z_plus | lia |].
  cbn [JS.div].
  destruct (round_quarter (v3 / 4) (t + r + b + l)) as (v & -> & Hv).
  - by rewrite H3, H2, H1, !inject_Z_plus.
  - lia.
  - exists v. split; [reflexivity|].
    by rewrite Hv, H3, H2, H1, !inject_Z_plus.
Qed.

Lemma mapSpacing_finite value v w :
  spacing_number value = JS.Finite v -> v == w -> mapSpacing value = bucket w.
Proof.
  intros Hv Hw. unfold bucket, mapSpacing. rewrite Hv. cbn [spacing_number JS.number_le].
  by rewrite !Hw.
Qed.

Lemma mapSpacing_whole (t r b l : Z) :
  (0 <= t <= 2 ^ 50)%Z -> (0 <= r <= 2 ^ 50)%Z ->
  (0 <= b <= 2 ^ 50)%Z -> (0 <= l <= 2 ^ 50)%Z ->
  mapSpacing (SpSides (Some (inject_Z t)) (Some (inject_Z r))
                (Some (inject_Z b)) (Some (inject_Z l)))
  = bucket (inject_Z (t + r + b + l) / 4).
Proof.
  intros Ht Hr Hb Hl.
  destruct (whole_padding_average t r b l Ht Hr Hb Hl) as (v & Hv & Havg).
  by apply (mapSpacing_finite _ v).
Qed.

(** X6.  Whatever it is given, a number, nothing, or the four sides of a
    padding, [mapSpacing] answers with a step from 1 to 6.  Nothing, and a
    padding with a side missing, give the largest step 6.  When the four
    sides are whole numbers of pixels from 0 to 2^50, the sum and the
    average are computed without a rounding error: the step is that of the
    exact average, it lies between the steps of any bounds of the four
    sides, and four equal sides give the step of that side. *)
Theorem spacing_of_any_argument :
  (forall value, In (mapSpacing value) [1; 2; 3; 4; 5; 6])
  /\ mapSpacing SpUndefined = 6
  /\ (forall t r b l,
        t = None \/ r = None \/ b = None \/ l = None ->
        mapSpacing (SpSides t r b l) = 6)
  /\ (forall t r b l : Z,
        (0 <= t <= 2 ^ 50)%Z -> (0 <= r <= 2 ^ 50)%Z ->
        (0 <= b <= 2 ^ 50)%Z -> (0 <= l <= 2 ^ 50)%Z ->
        mapSpacing (SpSides (Some (inject_Z t)) (Some (inject_Z r))
                      (Some (inject_Z b)) (Some (inject_Z l)))
        = bucket (inject_Z (t + r + b + l) / 4))
  /\ (forall t r b l lo hi : Z,
        (0 <= lo)%Z -> (hi <= 2 ^ 50)%Z ->
        (lo <= t <= hi)%Z -> (lo <= r <= hi)%Z -> (lo <= b <= hi)%Z -> (lo <= l <= hi)%Z ->
        bucket (inject_Z lo)
        <= mapSpacing (SpSides (Some (inject_Z t)) (Some (inject_Z r))
                         (Some (inject_Z b)) (Some (inject_Z l)))
        <= bucket (inject_Z hi))
  /\ (forall v : Z,
        (0 <= v <= 2 ^ 50)%Z ->
        mapSpacing (SpSides (Some (inject_Z v)) (Some (inject_Z v))
                      (Some (inject_Z v)) (Some (inject_Z v)))
        = bucket (inject_Z v)).
Proof.
  split; [|split; [reflexivity|split; [|split; [|split]]]].
  - exact mapSpacing_range.
  - intros t r b l H. apply mapSpacing_NaN. unfold spacing_number.
    destruct H as [-> | [-> | [-> | ->]]]; cbn [JS.operand];
      rewrite ?add_NaN_r; reflexivity.
  - exact mapSpacing_whole.
  - intros t r b l lo hi Hlo Hhi Ht Hr Hb Hl.
    rewrite mapSpacing_whole by lia. rewrite !inject_Z_plus.
    destruct (average_bounds (inject_Z t) (inject_Z r) (inject_Z b) (inject_Z l)
                (inject_Z lo) (inject_Z hi)) as [H1 H2];
      try (split; rewrite <- Zle_Qle; lia).
    split; by apply bucket_monotonic.
  - intros v Hv.
    destruct (whole_padding_average v v v v Hv Hv Hv Hv) as (w & Hw & Havg).
    apply (mapSpacing_finite _ w); [exact Hw|].
    rewrite Havg, !inject_Z_plus. field.
Qed.

Lemma spacing_of_any_argument_witness :
  mapSpacing (SpSides None (Some 8) (Some 8) (Some 8)) = 6
  /\ bucket (inject_Z 8)
     <= mapSpacing (SpSides (Some (inject_Z 8)) (Some (inject_Z 12))
                      (Some (inject_Z 8)) (Some (inject_Z 12)))
     <= bucket (inject_Z 12).
Proof.
  split.
  - apply (proj1 (proj2 (proj2 spacing_of_any_argument))). left. reflexivity.
  - apply (proj1 (proj2 (proj2 (proj2 (proj2 spacing_of_any_argument)))));
      vm_compute; intuition discriminate.
Defined.

(** The average of a padding is the rounded one: the sum of 16, 16, 16
    and 16 + 2^-48 rounds to 64, so the step is that of 16. *)
Example padding_average_is_rounded :
  mapSpacing (SpSides (Some 16) (Some 16) (Some 16) (Some (16 + 1 / 2 ^ 48))) = 3
  /\ bucket ((16 + 16 + 16 + (16 + 1 / 2 ^ 48)) / 4) = 4.
Proof. split; vm_compute; reflexivity. Qed.

End SpacingArguments.

Lemma own_property_In k m v : own_property k m = Some v -> In v (map snd m).
Proof.
  induction m as [|[k' v'] m IH]; simpl; [discriminate|].
  destruct (String.eqb k' k); [intros [= ->]; by left | intros H; right; by apply IH].
Qed.

Lemma lookup_or_own k m d :
  inherited_name k = false ->
  exists s, lookup_or k m d = VStr s /\ In s (d :: map snd m).
Proof.
  unfold lookup_or, inherited_name. destruct k as [k|]; [|intros _; exists d; simpl; tauto].
  intros Hk. destruct (own_property k m) as [v|] eqn:E.
  - exists v. split; [reflexivity|]. right. by apply own_property_In in E.
  - rewrite Hk. exists d. simpl; tauto.
Qed.

Lemma lookup_or_inherited k m d :
  In k JS.object_prototype_keys -> own_property k m = None ->
  lookup_or (Some k) m d = VInherited k.
Proof.
  intros Hk Hown. unfold lookup_or. rewrite Hown.
  assert (H : existsb (String.eqb k) JS.object_prototype_keys = true).
  { apply existsb_exists. exists k. split; [exact Hk | apply String.eqb_refl]. }
  by rewrite H.
Qed.

Lemma mapAlignment_own a :
  inherited_name a = false ->
  exists s, mapAlignment a = VStr s /\ In s ["start"; "center"; "end"; "stretch"].
Proof.
  intros H. destruct (lookup_or_own a
    [("MIN", "start"); ("CENTER", "center"); ("MAX", "end"); ("SPACE_BETWEEN", "stretch")]
    "start" H) as (s & Hs & Hin).
  exists s. split; [exact Hs|]. simpl in Hin. simpl. tauto.
Qed.

Lemma mapJustify_own j :
  inherited_name j = false ->
  exists s, mapJustify j = VStr s
            /\ In s ["start"; "center"; "end"; "space-between"; "space-around";
                     "space-evenly"].
Proof.
  intros H. destruct (lookup_or_own j
    [("MIN", "start"); ("CENTER", "center"); ("MAX", "end");
     ("SPACE_BETWEEN", "space-between"); ("SPACE_AROUND", "space-around");
     ("SPACE_EVENLY", "space-evenly")]
    "start" H) as (s & Hs & Hin).
  exists s. split; [exact Hs|]. simpl in Hin. simpl. tauto.
Qed.

Lemma mapAlignment_inherited k :
  In k JS.object_prototype_keys -> mapAlignment (Some k) = VInherited k.
Proof.
  intros Hk. apply lookup_or_inherited; [exact Hk|].
  unfold JS.object_prototype_keys in Hk. simpl in Hk.
  repeat (destruct Hk as [<-|Hk]; [reflexivity|]). destruct Hk.
Qed.

Lemma mapJustify_inherited k :
  In k JS.object_prototype_keys -> mapJustify (Some k) = VInherited k.
Proof.
  intros Hk. apply lookup_or_inherited; [exact Hk|].
  unfold JS.object_prototype_keys in Hk. simpl in Hk.
  repeat (destruct Hk as [<-|Hk]; [reflexivity|]). destruct Hk.
Qed.

(** X7.  A Stack or Flex node with a layout descriptor gets a gap from 1
    to 6, the largest step 6 when the layout has no gap, and an align; a
    Flex also gets a justify and a Stack never has one.  The align is among
    start, center, end and stretch, and the justify among the six justify
    keywords, unless the layout gives a name that every object inherits
    (constructor, toString, ...): the prop is then not a string but the
    inherited member of that name.  Without a layout descriptor the node
    gets none of the three props. *)
Theorem container_props :
  forall node componentType,
    componentType = "Stack" \/ componentType = "Flex" ->
    let props := extractProps node componentType in
    match node_layout node with
    | Some layout =>
        (exists g, get_prop "gap" props = Some (VNum g)
                   /\ In g [1; 2; 3; 4; 5; 6]%Q
                   /\ (layout_gap layout = None -> g = 6%Q))
        /\ (exists a, get_prop "align" props = Some a
                      /\ (inherited_name (layout_align layout) = false ->
                          exists s, a = VStr s /\ In s ["start"; "center"; "end"; "stretch"])
                      /\ (forall k, layout_align layout = Some k ->
                                    In k JS.object_prototype_keys -> a = VInherited k))
        /\ (componentType = "Flex" ->
            exists j, get_prop "justify" props = Some j
                      /\ (inherited_name (layout_justify layout) = false ->
                          exists s, j = VStr s
                                    /\ In s ["start"; "center"; "end"; "space-between";
                                             "space-around"; "space-evenly"])
                      /\ (forall k, layout_justify layout = Some k ->
                                    In k JS.object_prototype_keys -> j = VInherited k))
        /\ (componentType = "Stack" -> get_prop "justify" props = None)
    | None =>
        get_prop "gap" props = None /\ get_prop "align" props = None
        /\ get_prop "justify" props = None
    end.
Proof.
  intros node componentType Hkind props. subst props. unfold extractProps. cbv zeta.
  rewrite !get_with_style by discriminate.
  destruct (node_layout node) as [layout|].
  - split; [|split; [|split]].
    + exists (mapSpacing (gap_argument layout)). split; [|split].
      * destruct Hkind as [-> | ->]; simpl;
          destruct (node_visible node) as [[|]|]; props_lookup; reflexivity.
      * apply mapSpacing_range.
      * unfold gap_argument. by intros ->.
    + exists (mapAlignment (layout_align layout)). split; [|split].
      * destruct Hkind as [-> | ->]; simpl;
          destruct (node_visible node) as [[|]|]; props_lookup; reflexivity.
      * apply mapAlignment_own.
      * intros k -> Hk. by apply mapAlignment_inherited.
    + intros ->. exists (mapJustify (layout_justify layout)). split; [|split].
      * simpl. destruct (node_visible node) as [[|]|]; props_lookup; reflexivity.
      * apply mapJustify_own.
      * intros k -> Hk. by apply mapJustify_inherited.
    + intros ->. simpl.
      destruct (node_visible node) as [[|]|]; props_lookup; reflexivity.
  - destruct Hkind as [-> | ->]; simpl;
      destruct (node_visible node) as [[|]|]; repeat split.
Qed.

Lemma container_props_witness :
  exists g, get_prop "gap" (extractProps scenario "Stack") = Some (VNum g)
            /\ In g [1; 2; 3; 4; 5; 6]%Q
            /\ (layout_gap (mkLayout (Some "VERTICAL") None None None) = None -> g = 6%Q).
Proof.
  exact (proj1 (container_props scenario "Stack" (or_introl eq_refl))).
Defined.

(** A layout whose align is the name [constructor] gives an align prop
    that is no keyword: the builtin [Object] that the lookup table
    inherits. *)
Example align_can_be_inherited :
  get_prop "align"
    (extractProps
       (mkFigmaNode (Some "Row") "FRAME" None None
          (Some (mkLayout (Some "HORIZONTAL") (Some 8%Q) (Some "constructor") None))
          None [] SpUndefined None None [])
       "Flex")
  = Some (VInherited "constructor").
Proof. reflexivity. Qed.

(** ** The hierarchy lines of the prompt *)

Section HierarchyLines.

Variable number_to_string : Q -> string.

Lemma line_count_app l k : line_count (l ++ k) = line_count l + line_count k.
Proof. unfold line_count. rewrite List.filter_app, !length_app. lia. Qed.

Lemma fold_buildComponent_lines kids level :
  Forall (fun k => forall st lvl, exists lines,
              fst (buildComponent number_to_string k st lvl) = fst st ++ lines
              /\ length lines = line_count (all_nodes k))
    kids ->
  forall st, exists lines,
    fst (fold_left (fun acc child => buildComponent number_to_string child acc level) kids st)
    = fst st ++ lines
    /\ length lines = line_count (forest_nodes kids).
Proof.
  unfold forest_nodes.
  induction 1 as [|k kids Hk _ IH]; intros st; simpl.
  - exists []. split; [by rewrite app_nil_r | reflexivity].
  - destruct (Hk st level) as (l1 & H1 & Hn1).
    destruct (IH (buildComponent number_to_string k st level)) as (l2 & H2 & Hn2).
    exists (l1 ++ l2). split.
    + by rewrite H2, H1, <- List.app_assoc.
    + rewrite line_count_app, length_app. lia.
Qed.

Lemma buildComponent_lines component :
  forall st level, exists lines,
    fst (buildComponent number_to_string component st level) = fst st ++ lines
    /\ length lines = line_count (all_nodes component).
Proof.
  induction component as [component IH] using SaltComponent_tree_ind.
  intros st level. rewrite buildComponent_unfold. cbv zeta. cbn [fst].
  match goal with
  | |- context [fold_left ?f (sc_children component) ?init] =>
      destruct (fold_buildComponent_lines _ (S level) IH init) as (lines & Hl & Hn)
  end.
  rewrite Hl. cbn [fst].
  rewrite all_nodes_unfold.
  change (line_count (component :: flat_map all_nodes (sc_children component)))
    with (line_count ([component] ++ forest_nodes (sc_children component))).
  rewrite line_count_app. unfold line_count at 1. simpl List.filter.
  unfold has_content at 1.
  destruct (JS.truthy_string (sc_content component)).
  - eexists. split.
    + rewrite <- !List.app_assoc. reflexivity.
    + rewrite !length_app. simpl. lia.
  - eexists. split.
    + rewrite <- !List.app_assoc. reflexivity.
    + rewrite !length_app. simpl. lia.
Qed.

(** X8.  The renderer only appends to the hierarchy lines it is given, and
    what it appends for a forest is two lines for every node, the opening
    and the closing tag, and one more for every node with a content. *)
Theorem hierarchy_line_count :
  forall components tree imports level,
    exists lines,
      fst (buildComponentTree number_to_string components (tree, imports) level)
      = tree ++ lines
      /\ length lines =
         2 * length (forest_nodes components)
         + length (List.filter has_content (forest_nodes components)).
Proof.
  intros components tree imports level. unfold buildComponentTree.
  apply (fold_buildComponent_lines components level).
  apply Forall_forall. intros k _. apply buildComponent_lines.
Qed.

End HierarchyLines.

(** ** The import lines of a mapped tree *)

Lemma existsb_map_inj (f : string -> string) x (s : list string) :
  (forall y, In y s -> f x = f y -> x = y) ->
  existsb (String.eqb (f x)) (map f s) = existsb (String.eqb x) s.
Proof.
  induction s as [|y s IH]; intros Hinj; simpl; [reflexivity|].
  rewrite IH by (intros z Hz; apply Hinj; by right).
  f_equal. destruct (String.eqb_spec x y) as [->|Hne].
  - apply String.eqb_refl.
  - apply String.eqb_neq. intros Heq. apply Hne, Hinj; [by left | exact Heq].
Qed.

Lemma fold_set_add_map_inj (f : string -> string) xs : forall s,
  (forall x y, In x (xs ++ s) -> In y (xs ++ s) -> f x = f y -> x = y) ->
  fold_left (fun s x => JS.set_add x s) (map f xs) (map f s) =
  map f (fold_left (fun s x => JS.set_add x s) xs s).
Proof.
  induction xs as [|x xs IH]; intros s Hinj; simpl; [reflexivity|].
  assert (Hadd : JS.set_add (f x) (map f s) = map f (JS.set_add x s)).
  { unfold JS.set_add. rewrite existsb_map_inj.
    - destruct (existsb (String.eqb x) s); [reflexivity|]. by rewrite map_app.
    - intros y Hy. apply Hinj; simpl; [by left | right; apply in_or_app; by right]. }
  rewrite Hadd. apply IH. intros a b Ha Hb. apply Hinj.
  - apply in_app_or in Ha as [Ha|Ha]; [right; apply in_or_app; by left|].
    apply set_add_In in Ha as [->|Ha]; [by left | right; apply in_or_app; by right].
  - apply in_app_or in Hb as [Hb|Hb]; [right; apply in_or_app; by left|].
    apply set_add_In in Hb as [->|Hb]; [by left | right; apply in_or_app; by right].
Qed.

Lemma new_Set_map_inj (f : string -> string) xs :
  (forall x y, In x xs -> In y xs -> f x = f y -> x = y) ->
  JS.new_Set (map f xs) = map f (JS.new_Set xs).
Proof.
  intros Hinj. unfold JS.new_Set.
  apply (fold_set_add_map_inj f xs []). intros x y Hx Hy.
  rewrite app_nil_r in Hx, Hy. by apply Hinj.
Qed.

Lemma import_of_injective x y :
  In x (catalog_keys ++ ["Box"]) -> In y (catalog_keys ++ ["Box"]) ->
  import_of x = import_of y -> x = y.
Proof.
  unfold catalog_keys. simpl. intros Hx Hy.
  repeat (destruct Hx as [<-|Hx]);
    try (destruct Hx);
    repeat (destruct Hy as [<-|Hy]);
    try (destruct Hy);
    intros H; try reflexivity; vm_compute in H; discriminate.
Qed.

Lemma known_type_import c :
  known_type c ->
  In (sc_type c) (catalog_keys ++ ["Box"]) /\ sc_import c = import_of (sc_type c).
Proof.
  intros [Hcat | [Ht Hi]].
  - destruct c as [ty imp props kids content]. simpl in *.
    unfold componentMap in Hcat. simpl in Hcat.
    repeat (destruct Hcat as [[= <- <-]|Hcat];
            [split; [unfold catalog_keys; simpl; tauto | reflexivity]|]).
    destruct Hcat.
  - rewrite Ht, Hi. split; [|reflexivity].
    apply in_or_app. right. by left.
Qed.

Section MappedImports.

Variable number_to_string : Q -> string.

(** X9.  For a tree the mapper produced, the import section has one line
    for every distinct component type of the tree, in the order in which
    the types first appear, and the line of a type names the catalog path
    of the type, or "Box" for a Box. *)
Theorem mapped_tree_import_lines :
  forall figmaData,
    let components := mapToSaltComponents figmaData in
    import_lines number_to_string components =
    map (fun type => import_line (import_of type))
      (JS.new_Set (map sc_type (forest_nodes components))).
Proof.
  intros figmaData components.
  assert (Hknown : Forall known_type (forest_nodes components)).
  { subst components. unfold mapToSaltComponents. rewrite processNode_forest. simpl.
    apply mapped_forest_known. }
  unfold import_lines. rewrite buildComponentTree_imports. unfold forest_imports.
  assert (Himports : map sc_import (forest_nodes components)
                     = map import_of (map sc_type (forest_nodes components))).
  { rewrite map_map. apply map_ext_Forall.
    eapply Forall_impl; [exact Hknown|]. intros c Hc. by apply known_type_import. }
  rewrite Himports, new_Set_map_inj, map_map; [reflexivity|].
  intros x y Hx Hy. apply import_of_injective.
  - apply in_map_iff in Hx as (c & <- & Hc).
    rewrite List.Forall_forall in Hknown. by apply known_type_import, Hknown.
  - apply in_map_iff in Hy as (c & <- & Hc).
    rewrite List.Forall_forall in Hknown. by apply known_type_import, Hknown.
Qed.

End MappedImports.

(** ** What the validator accepts *)

Lemma errors_of_validateReactCode code :
  errors (validateReactCode code) =
  (if negb (JS.includes code "@salt-ds/core")
   then ["Missing Salt Design System imports"] else [])
  ++ (if negb (JS.includes code "export default" || JS.includes code "export {")
      then ["Component must be exported"] else [])
  ++ flat_map (check_component code []) saltComponents.
Proof.
  unfold validateReactCode. cbn [errors]. rewrite fold_check_component.
  destruct (negb (JS.includes code "@salt-ds/core"));
    destruct (negb (JS.includes code "export default" || JS.includes code "export {"));
    reflexivity.
Qed.

Lemma flat_map_nil {A B} (f : A -> list B) (l : list A) :
  flat_map f l = [] <-> forall x, In x l -> f x = [].
Proof.
  induction l as [|x l IH]; simpl.
  - split; [intros _ y [] | reflexivity].
  - split.
    + intros H. apply app_eq_nil in H as [Hx Hl].
      intros y [<-|Hy]; [exact Hx | by apply IH].
    + intros H. rewrite (H x) by (by left). apply IH. intros y Hy. apply H. by right.
Qed.

Lemma import_pattern_literal code comp :
  JS.includes code (import_pattern comp) = true -> JS.includes code ".*" = true.
Proof.
  unfold import_pattern. intros H.
  change ("import.*" +:+ comp +:+ ".*from.*@salt-ds")
    with ("import" +:+ (".*" +:+ (comp +:+ ".*from.*@salt-ds"))) in H.
  apply includes_app_r in H. by apply includes_app_l in H.
Qed.

(** X10.  The validator accepts a text exactly when the text contains
    "@salt-ds/core", contains "export default" or "export {", and, for each
    of Button, Input, Card, Stack and Flex whose opening tag it contains,
    also contains the text "import.*" followed by the name and by
    ".*from.*@salt-ds", character for character. *)
Theorem validator_accepts_iff :
  forall code,
    valid (validateReactCode code) = true <->
    JS.includes code "@salt-ds/core" = true
    /\ (JS.includes code "export default" = true \/ JS.includes code "export {" = true)
    /\ (forall comp, In comp saltComponents ->
          JS.includes code ("<" +:+ comp) = true ->
          JS.includes code (import_pattern comp) = true).
Proof.
  intros code. rewrite valid_iff_no_errors, errors_of_validateReactCode. split.
  - intros H. apply app_eq_nil in H as [Hsalt H]. apply app_eq_nil in H as [Hexp Htags].
    split; [|split].
    + destruct (JS.includes code "@salt-ds/core"); [reflexivity | discriminate].
    + apply orb_true_iff.
      destruct (JS.includes code "export default" || JS.includes code "export {");
        [reflexivity | discriminate].
    + intros comp Hcomp Htag.
      pose proof (proj1 (flat_map_nil _ _) Htags comp Hcomp) as Hc.
      unfold check_component in Hc. rewrite Htag in Hc.
      destruct (JS.includes code (import_pattern comp)); [reflexivity | discriminate].
  - intros (Hsalt & Hexp & Htags). rewrite Hsalt.
    apply orb_true_iff in Hexp. rewrite Hexp. cbn [negb app].
    apply flat_map_nil. intros comp Hcomp. unfold check_component.
    destruct (JS.includes code ("<" +:+ comp)) eqn:Htag; [|reflexivity].
    by rewrite (Htags comp Hcomp Htag).
Qed.

(** X11.  The validator never recognises an import statement: a text that
    contains the opening tag of Button, Input, Card, Stack or Flex and
    nowhere the two characters ".*" is rejected with the error that the
    component is used but not imported, whatever it imports. *)
Theorem validator_flags_every_tag :
  forall code comp,
    In comp saltComponents ->
    JS.includes code ("<" +:+ comp) = true ->
    JS.includes code ".*" = false ->
    valid (validateReactCode code) = false
    /\ In (comp +:+ " component used but not imported from Salt")
         (errors (validateReactCode code)).
Proof.
  intros code comp Hcomp Htag Hliteral.
  assert (Hpat : JS.includes code (import_pattern comp) = false).
  { destruct (JS.includes code (import_pattern comp)) eqn:E; [|reflexivity].
    apply import_pattern_literal in E. congruence. }
  assert (Hin : In (comp +:+ " component used but not imported from Salt")
                  (errors (validateReactCode code))).
  { rewrite errors_of_validateReactCode. apply in_or_app. right.
    apply in_or_app. right. apply in_flat_map. exists comp. split; [exact Hcomp|].
    unfold check_component. rewrite Htag, Hpat. by left. }
  split; [|exact Hin].
  destruct (valid (validateReactCode code)) eqn:Hv; [|reflexivity].
  apply valid_iff_no_errors in Hv. rewrite Hv in Hin. destruct Hin.
Qed.

Lemma validator_flags_every_tag_witness :
  valid (validateReactCode
    "import { Card } from '@salt-ds/core'; export default () => <Card>Hi</Card>;") = false.
Proof.
  apply (validator_flags_every_tag
    "import { Card } from '@salt-ds/core'; export default () => <Card>Hi</Card>;" "Card").
  - unfold saltComponents. simpl. tauto.
  - reflexivity.
  - reflexivity.
Defined.

(** ** What the example cache keeps *)

Section CacheInvariants.

Variable remote : Remote.

Lemma entry_cached cache ty e : cache !! ty = Some e -> entry remote cache ty = Some e.
Proof. unfold entry. by intros ->. Qed.

(** X12.  The cache is never invalidated: an example that is cached before
    a call is still cached after it, the call does not post its type, and
    when the type is asked for the call returns the cached example. *)
Theorem cached_examples_persist :
  forall components st ty e,
    exampleCache st !! ty = Some e ->
    let result := fetchRelevantExamples remote components st in
    exampleCache (snd result) !! ty = Some e
    /\ ~ In ty (posted_since st (snd result))
    /\ (In ty (map sc_type components) -> In e (fst result)).
Proof.
  intros components st ty e Hcached result. subst result. split; [|split].
  - rewrite fetchRelevantExamples_cache.
    destruct (in_dec string_dec ty (map sc_type components));
      [by apply entry_cached | exact Hcached].
  - rewrite fetchRelevantExamples_posted. intros Hin.
    apply filter_In in Hin as [_ Hun]. unfold uncached in Hun. by rewrite Hcached in Hun.
  - intros Hin. rewrite fetchRelevantExamples_examples.
    apply list_elem_of_In, list_elem_of_omap. exists ty. split.
    + by apply list_elem_of_In, new_Set_In.
    + by apply entry_cached.
Qed.

(** X13.  One call posts to the endpoint exactly the component types of the
    root components that are not cached, each of them once. *)
Theorem one_post_per_uncached_type :
  forall components st,
    let result := fetchRelevantExamples remote components st in
    NoDup (posted_since st (snd result))
    /\ (forall ty, In ty (posted_since st (snd result)) <->
                   In ty (map sc_type components) /\ exampleCache st !! ty = None)
    /\ length (fst result) <= length (JS.new_Set (map sc_type components)).
Proof.
  intros components st result. subst result.
  rewrite fetchRelevantExamples_posted, fetchRelevantExamples_examples.
  split; [|split].
  - apply NoDup_ListNoDup, List.NoDup_filter, NoDup_ListNoDup, new_Set_NoDup.
  - intros ty. rewrite filter_In, new_Set_In. unfold uncached.
    destruct (exampleCache st !! ty); split; intros [H1 H2]; (split; [exact H1|]);
      congruence.
  - generalize (JS.new_Set (map sc_type components)). intros l.
    induction l as [|x l IH]; csimpl; [lia|].
    destruct (entry remote (exampleCache st) x); simpl; lia.
Qed.

Lemma entry_after_call components st ty :
  entry remote (exampleCache (snd (fetchRelevantExamples remote components st))) ty =
  entry remote (exampleCache st) ty.
Proof.
  unfold entry at 1. rewrite fetchRelevantExamples_cache.
  destruct (in_dec string_dec ty (map sc_type components)); [|reflexivity].
  unfold entry. destruct (exampleCache st !! ty); [reflexivity|].
  by destruct (fetched remote ty).
Qed.

(** X14.  Asking again changes nothing: a second call for the same
    components against an endpoint that answers as before returns the same
    examples and leaves the cache as the first call left it. *)
Theorem repeated_call_is_stable :
  forall components st,
    let first := fetchRelevantExamples remote components st in
    let second := fetchRelevantExamples remote components (snd first) in
    fst second = fst first
    /\ exampleCache (snd second) = exampleCache (snd first).
Proof.
  intros components st first second. subst first second. split.
  - rewrite !fetchRelevantExamples_examples.
    apply omap_pointwise. intros ty. apply entry_after_call.
  - apply map_eq. intros ty. rewrite (fetchRelevantExamples_cache _ _ (snd _)).
    destruct (in_dec string_dec ty (map sc_type components)) as [Hin|]; [|reflexivity].
    rewrite entry_after_call. rewrite fetchRelevantExamples_cache.
    by destruct (in_dec string_dec ty (map sc_type components)).
Qed.

End CacheInvariants.

Lemma cached_examples_persist_witness :
  let st := mkState (<["Button" := "<Button />"]> ∅) [] [] in
  exampleCache (snd (fetchRelevantExamples (fun _ => PostFails) [] st)) !! "Button"
  = Some "<Button />".
Proof.
  intros st.
  apply (proj1 (cached_examples_persist (fun _ => PostFails) [] st "Button" "<Button />"
                  (lookup_insert_eq _ _ _))).
Defined.

(** ** Regular expressions: what a match is *)

Import RegExp.

Section Strings.

Lemma append_cons a (s t : string) : String a s +:+ t = String a (s +:+ t).
Proof. reflexivity. Qed.

Lemma append_nil_l (s : string) : "" +:+ s = s.
Proof. reflexivity. Qed.

Lemma append_nil_r (s : string) : s +:+ "" = s.
Proof. induction s as [|a s IH]; [reflexivity|]. by rewrite append_cons, IH. Qed.

Lemma append_assoc (s t u : string) : (s +:+ t) +:+ u = s +:+ (t +:+ u).
Proof. induction s as [|a s IH]; [reflexivity|]. by rewrite !append_cons, IH. Qed.

Lemma snoc_append acc c (d : string) : snoc acc c +:+ d = acc +:+ String c d.
Proof. unfold snoc. by rewrite append_assoc. Qed.

Lemma strip_prefix_Some p s r : strip_prefix p s = Some r <-> s = p +:+ r.
Proof.
  revert s. induction p as [|a p IH]; intros s.
  - simpl. split; [by intros [= ->] | by intros ->].
  - destruct s as [|b s]; simpl; [split; discriminate|].
    destruct (Ascii.eqb_spec a b) as [->|Hne].
    + rewrite IH, append_cons. split; [by intros -> | by intros [= ->]].
    + rewrite append_cons. split; [discriminate | intros [= ? ?]; congruence].
Qed.

Lemma strip_prefix_app p r : strip_prefix p (p +:+ r) = Some r.
Proof. by apply strip_prefix_Some. Qed.

Lemma startsWith_strip s p : JS.startsWith s p = true <-> exists r, strip_prefix p s = Some r.
Proof.
  revert s. induction p as [|a p IH]; intros s.
  - destruct s; simpl; split; eauto.
  - destruct s as [|b s]; simpl.
    + split; [discriminate | intros [r Hr]; discriminate].
    + destruct (Ascii.eqb a b); [apply IH|].
      split; [discriminate | intros [r Hr]; discriminate].
Qed.

Lemma startsWith_app s r : JS.startsWith (s +:+ r) s = true.
Proof. apply startsWith_strip. exists r. apply strip_prefix_app. Qed.

Lemma includes_prepend t s p : JS.includes s p = true -> JS.includes (t +:+ s) p = true.
Proof.
  intros H. induction t as [|a t IH]; [exact H|].
  rewrite append_cons. by apply includes_cons.
Qed.

Lemma startsWith_append s t p : JS.startsWith s p = true -> JS.startsWith (s +:+ t) p = true.
Proof.
  intros H. apply startsWith_strip in H as [r Hr]. apply strip_prefix_Some in Hr.
  subst s. rewrite append_assoc. apply startsWith_app.
Qed.

Lemma includes_append s t p : JS.includes s p = true -> JS.includes (s +:+ t) p = true.
Proof.
  induction s as [|a s IH]; intros H.
  - apply includes_inv in H as [H|(c & r & Heq & _)]; [|discriminate].
    apply startsWith_includes. by apply (startsWith_append "" t).
  - apply includes_inv in H as [H|(c & r & Heq & H)].
    + apply startsWith_includes. by apply startsWith_append.
    + injection Heq as -> ->. rewrite append_cons. apply includes_cons, IH, H.
Qed.

Lemma includes_middle pre s post p :
  JS.includes s p = true -> JS.includes (pre +:+ s +:+ post) p = true.
Proof. intros H. by apply includes_prepend, includes_append. Qed.

End Strings.

Section Patterns.

Lemma extends_lit p : extends (lit p).
Proof.
  intros acc cap s k found H. unfold lit in H.
  destruct (strip_prefix p s) as [r|] eqn:Hp; [|discriminate].
  apply strip_prefix_Some in Hp. by exists p, cap, r.
Qed.

Lemma extends_chr class : extends (chr class).
Proof.
  intros acc cap s k found H. unfold chr in H.
  destruct s as [|c r]; [discriminate|]. destruct (class c); [|discriminate].
  by exists (String c ""), cap, r.
Qed.

Lemma extends_seq m1 m2 : extends m1 -> extends m2 -> extends (seq m1 m2).
Proof.
  intros H1 H2 acc cap s k found H. unfold seq in H.
  apply H1 in H as (d1 & cap1 & r1 & H & ->).
  apply H2 in H as (d2 & cap2 & r2 & H & ->).
  exists (d1 +:+ d2), cap2, r2. by rewrite <- !append_assoc.
Qed.

Lemma extends_alt m1 m2 : extends m1 -> extends m2 -> extends (alt m1 m2).
Proof.
  intros H1 H2 acc cap s k found H. unfold alt in H.
  destruct (m1 acc cap s k) eqn:E; [injection H as ->; by eapply H1 | by eapply H2].
Qed.

Lemma extends_opt m : extends m -> extends (opt m).
Proof.
  intros Hm acc cap s k found H. unfold opt in H.
  destruct (m acc cap s k) eqn:E; [injection H as ->; by eapply Hm|].
  exists "", cap, s. by rewrite append_nil_r.
Qed.

Lemma extends_star class : extends (star class).
Proof.
  intros acc cap s. revert acc. induction s as [|c r IH]; intros acc k found H; simpl in H.
  - exists "", cap, "". by rewrite append_nil_r.
  - destruct (class c).
    + destruct (star class (snoc acc c) cap r k) eqn:E.
      * injection H as ->. apply IH in E as (d & cap' & r' & E & ->).
        exists (String c d), cap', r'. by rewrite <- snoc_append.
      * exists "", cap, (String c r). by rewrite append_nil_r.
    + exists "", cap, (String c r). by rewrite append_nil_r.
Qed.

(** A greedy [+] consumes at least one character. *)
Lemma plus_not_empty class acc cap s k found :
  plus class acc cap s k = Some found ->
  exists d cap' r, d <> "" /\ k (acc +:+ d) cap' r = Some found /\ s = d +:+ r.
Proof.
  unfold plus. destruct s as [|c r]; [discriminate|].
  destruct (class c); [|discriminate]. intros H.
  apply extends_star in H as (d & cap' & r' & H & ->).
  exists (String c d), cap', r'. by rewrite <- snoc_append.
Qed.

Lemma extends_plus class : extends (plus class).
Proof.
  intros acc cap s k found H.
  apply plus_not_empty in H as (d & cap' & r & _ & H & ->). by exists d, cap', r.
Qed.

Lemma extends_lazy_any : extends lazy_any.
Proof.
  intros acc cap s. revert acc. induction s as [|c r IH]; intros acc k found H; simpl in H.
  - destruct (k acc cap "") eqn:E; [|discriminate]. injection H as ->.
    exists "", cap, "". by rewrite append_nil_r.
  - destruct (k acc cap (String c r)) eqn:E.
    + injection H as ->. exists "", cap, (String c r). by rewrite append_nil_r.
    + apply IH in H as (d & cap' & r' & H & ->).
      exists (String c d), cap', r'. by rewrite <- snoc_append.
Qed.

Lemma extends_group m : extends m -> extends (group m).
Proof.
  intros Hm acc cap s k found H. unfold group in H.
  apply Hm in H as (d & cap' & r & H & ->). by exists d, d, r.
Qed.

Lemma extends_from_module : extends from_module.
Proof.
  unfold from_module.
  apply extends_seq; [apply extends_lit|].
  apply extends_seq; [apply extends_plus|].
  apply extends_seq; [apply extends_chr|].
  apply extends_seq; [apply extends_group, extends_plus | apply extends_chr].
Qed.

Lemma extends_import_clause : extends import_clause.
Proof.
  unfold import_clause. apply extends_alt; [|apply extends_alt].
  - apply extends_seq; [apply extends_lit|].
    apply extends_seq; [apply extends_plus | apply extends_lit].
  - apply extends_seq; [apply extends_lit|].
    apply extends_seq; [apply extends_plus|].
    apply extends_seq; [apply extends_lit|].
    apply extends_seq; apply extends_plus.
  - apply extends_plus.
Qed.

Lemma extends_import_tail :
  extends (seq (plus is_space) (seq import_clause (seq (plus is_space) from_module))).
Proof.
  apply extends_seq; [apply extends_plus|].
  apply extends_seq; [apply extends_import_clause|].
  apply extends_seq; [apply extends_plus | apply extends_from_module].
Qed.

Lemma extends_import_statement : extends import_statement.
Proof.
  unfold import_statement. apply extends_seq; [apply extends_lit | apply extends_import_tail].
Qed.

Lemma extends_language_tag :
  extends (alt (seq (lit "ts") (opt (lit "x"))) (seq (lit "js") (opt (lit "x")))).
Proof.
  apply extends_alt; apply extends_seq;
    solve [apply extends_lit | apply extends_opt, extends_lit].
Qed.

Lemma extends_code_block : extends code_block.
Proof.
  unfold code_block.
  apply extends_seq; [apply extends_lit|].
  apply extends_seq; [apply extends_language_tag|].
  apply extends_seq; [apply extends_lit|].
  apply extends_seq; [apply extends_group, extends_lazy_any | apply extends_lit].
Qed.

(** A match at the start of a text is a prefix of the text. *)
Lemma exec_at_prefix m s whole cap r :
  extends m -> exec_at m s = Some (whole, cap, r) -> s = whole +:+ r.
Proof.
  intros Hm H. unfold exec_at in H.
  apply Hm in H as (d & cap' & r' & H & ->). by injection H as <- <- <-.
Qed.

(** A match anywhere in a text is a part of the text. *)
Lemma search_part m s whole cap r :
  extends m -> search m s = Some (whole, cap, r) -> exists pre, s = pre +:+ whole +:+ r.
Proof.
  intros Hm. induction s as [|c s IH]; simpl; intros H.
  - destruct (exec_at m "") as [[[w g] r0]|] eqn:E; [|discriminate].
    injection H as -> -> ->. exists "". by apply exec_at_prefix in E.
  - destruct (exec_at m (String c s)) as [[[w g] r0]|] eqn:E.
    + injection H as -> -> ->. exists "". by apply exec_at_prefix in E.
    + destruct (IH H) as [pre ->]. by exists (String c pre).
Qed.

End Patterns.

Section Matches.

Lemma exec_all_includes m s : forall skip x,
  extends m -> In x (exec_all m s skip) -> JS.includes s x = true.
Proof.
  induction s as [|c s IH]; intros skip x Hm Hx; [destruct Hx|].
  cbn [exec_all] in Hx. destruct skip as [|n].
  - destruct (exec_at m (String c s)) as [[[w g] r]|] eqn:E.
    + destruct Hx as [<-|Hx].
      * apply exec_at_prefix in E; [|exact Hm]. rewrite E.
        apply startsWith_includes, startsWith_app.
      * apply includes_cons. by eapply IH.
    + apply includes_cons. by eapply IH.
  - apply includes_cons. by eapply IH.
Qed.

Lemma exec_at_lit_prefix p m s whole cap r :
  extends m -> exec_at (seq (lit p) m) s = Some (whole, cap, r) ->
  JS.startsWith whole p = true.
Proof.
  intros Hm H. unfold exec_at, seq, lit in H.
  destruct (strip_prefix p s) as [r0|]; [|discriminate].
  apply Hm in H as (d & cap' & r' & H & _). injection H as <- _ _.
  rewrite append_nil_l. apply startsWith_app.
Qed.

Lemma exec_all_lit_prefix p m s : forall skip x,
  extends m -> In x (exec_all (seq (lit p) m) s skip) -> JS.startsWith x p = true.
Proof.
  induction s as [|c s IH]; intros skip x Hm Hx; [destruct Hx|].
  cbn [exec_all] in Hx. destruct skip as [|n].
  - destruct (exec_at (seq (lit p) m) (String c s)) as [[[w g] r]|] eqn:E.
    + destruct Hx as [<-|Hx]; [by eapply exec_at_lit_prefix | by eapply IH].
    + by eapply IH.
  - by eapply IH.
Qed.

Lemma keeps_capture_chr class : keeps_capture (chr class).
Proof.
  intros acc cap s k found H. unfold chr in H.
  destruct s as [|c r]; [discriminate|]. destruct (class c); [|discriminate]. eauto.
Qed.

Lemma captures_group_plus class : captures (fun g => g <> "") (group (plus class)).
Proof.
  intros acc cap s k found H. unfold group in H.
  apply plus_not_empty in H as (d & cap' & r & Hd & H & _).
  rewrite append_nil_l in H. by exists (acc +:+ d), d, r.
Qed.

Lemma captures_seq_r P m1 m2 : extends m1 -> captures P m2 -> captures P (seq m1 m2).
Proof.
  intros H1 H2 acc cap s k found H. unfold seq in H.
  apply H1 in H as (d & cap' & r & H & _). by apply H2 in H.
Qed.

Lemma captures_seq_l P m1 m2 : captures P m1 -> keeps_capture m2 -> captures P (seq m1 m2).
Proof.
  intros H1 H2 acc cap s k found H. unfold seq in H.
  apply H1 in H as (acc' & g & r & Hg & H).
  apply H2 in H as (acc'' & r' & H). by exists acc'', g, r'.
Qed.

Lemma captures_from_module : captures (fun g => g <> "") from_module.
Proof.
  unfold from_module.
  apply captures_seq_r; [apply extends_lit|].
  apply captures_seq_r; [apply extends_plus|].
  apply captures_seq_r; [apply extends_chr|].
  apply captures_seq_l; [apply captures_group_plus | apply keeps_capture_chr].
Qed.

Lemma search_captures P m s whole cap r :
  captures P m -> search m s = Some (whole, cap, r) -> P cap.
Proof.
  intros Hm. induction s as [|c s IH]; simpl; intros H.
  - destruct (exec_at m "") as [found|] eqn:E; [|discriminate]. injection H as ->.
    unfold exec_at in E. apply Hm in E as (acc' & g & r' & Hg & E). by injection E as _ <- _.
  - destruct (exec_at m (String c s)) as [found|] eqn:E; [|by apply IH].
    injection H as ->.
    unfold exec_at in E. apply Hm in E as (acc' & g & r' & Hg & E). by injection E as _ <- _.
Qed.

End Matches.

(** ** The fenced block of a completion *)

Section CodeBlock.

Lemma lit_inv p acc cap s k found :
  lit p acc cap s k = Some found ->
  exists r, s = p +:+ r /\ k (acc +:+ p) cap r = Some found.
Proof.
  unfold lit. destruct (strip_prefix p s) as [r|] eqn:E; [|discriminate].
  apply strip_prefix_Some in E. eauto.
Qed.

Lemma lit_app p acc cap r k : lit p acc cap (p +:+ r) k = k (acc +:+ p) cap r.
Proof. unfold lit. by rewrite strip_prefix_app. Qed.

Lemma opt_x_inv acc cap s k found :
  opt (lit "x") acc cap s k = Some found ->
  (exists r, s = "x" +:+ r /\ k (acc +:+ "x") cap r = Some found)
  \/ k acc cap s = Some found.
Proof.
  unfold opt. destruct (lit "x" acc cap s k) eqn:E.
  - intros [= ->]. left. by apply lit_inv in E.
  - by right.
Qed.

(** [(?:tsx?|jsx?)] matches one of the four language tags. *)
Lemma language_tag_inv acc cap s k found :
  alt (seq (lit "ts") (opt (lit "x"))) (seq (lit "js") (opt (lit "x"))) acc cap s k
  = Some found ->
  exists lang r, In lang languages /\ s = lang +:+ r
                 /\ k (acc +:+ lang) cap r = Some found.
Proof.
  unfold alt, seq. intros H.
  destruct (lit "ts" acc cap s (fun acc' cap' r => opt (lit "x") acc' cap' r k)) eqn:E.
  - injection H as ->. apply lit_inv in E as (r & -> & E).
    apply opt_x_inv in E as [(r' & -> & E)|E].
    + exists "tsx", r'. rewrite append_assoc in E. repeat split; [|exact E].
      unfold languages. simpl. tauto.
    + exists "ts", r. repeat split; [|exact E]. unfold languages. simpl. tauto.
  - apply lit_inv in H as (r & -> & H).
    apply opt_x_inv in H as [(r' & -> & H)|H].
    + exists "jsx", r'. rewrite append_assoc in H. repeat split; [|exact H].
      unfold languages. simpl. tauto.
    + exists "js", r. repeat split; [|exact H]. unfold languages. simpl. tauto.
Qed.

(** A lazy [*?] stops at the first place where what follows matches. *)
Lemma lazy_any_shortest s : forall acc cap k found,
  lazy_any acc cap s k = Some found ->
  exists d r, s = d +:+ r /\ k (acc +:+ d) cap r = Some found
              /\ forall d1 d2, d = d1 +:+ d2 -> d2 <> "" ->
                               k (acc +:+ d1) cap (d2 +:+ r) = None.
Proof.
  induction s as [|c s IH]; intros acc cap k found H; simpl in H.
  - destruct (k acc cap "") eqn:E; [|discriminate]. injection H as ->.
    exists "", "". rewrite (append_nil_r acc). repeat split; [exact E|].
    intros d1 d2 Hd Hne. destruct d1, d2; try discriminate. by destruct Hne.
  - destruct (k acc cap (String c s)) eqn:E.
    + injection H as ->. exists "", (String c s). rewrite (append_nil_r acc).
      repeat split; [exact E|].
      intros d1 d2 Hd Hne. destruct d1, d2; try discriminate. by destruct Hne.
    + apply IH in H as (d & r & -> & H & Hfirst).
      exists (String c d), r. rewrite <- snoc_append. repeat split; [exact H|].
      intros d1 d2 Hd Hne. destruct d1 as [|c1 d1].
      * rewrite append_nil_l in Hd. subst d2.
        by rewrite append_nil_r, append_cons.
      * rewrite append_cons in Hd. injection Hd as <- ->.
        rewrite <- snoc_append. by apply Hfirst.
Qed.

Lemma includes_split s p :
  JS.includes s p = true -> exists s1 s2, s = s1 +:+ s2 /\ JS.startsWith s2 p = true.
Proof.
  induction s as [|c s IH]; intros H; apply includes_inv in H as [H|(c' & r & Heq & H)].
  - by exists "", "".
  - discriminate.
  - by exists "", (String c s).
  - injection Heq as -> ->. destruct (IH H) as (s1 & s2 & -> & Hs2).
    by exists (String c' s1), s2.
Qed.

(** What a match of the fenced-block pattern at the start of a text is. *)
Lemma exec_at_code_block s whole code rest :
  exec_at code_block s = Some (whole, code, rest) ->
  exists lang,
    In lang languages
    /\ whole = fence +:+ lang +:+ JS.newline +:+ code +:+ closing
    /\ s = whole +:+ rest
    /\ JS.includes code closing = false.
Proof.
  intros H. pose proof (exec_at_prefix _ _ _ _ _ extends_code_block H) as Hs.
  unfold exec_at, code_block in H. unfold seq at 1 in H.
  apply lit_inv in H as (r1 & _ & H). unfold seq at 1 in H.
  apply language_tag_inv in H as (lang & r2 & Hlang & _ & H). unfold seq at 1 in H.
  apply lit_inv in H as (r3 & _ & H). unfold seq, group in H.
  apply lazy_any_shortest in H as (d & r4 & _ & H & Hfirst).
  rewrite !append_nil_l in H.
  apply lit_inv in H as (r5 & -> & H). injection H as <- <- <-.
  exists lang. split; [exact Hlang|]. split; [|split; [exact Hs|]].
  - unfold closing. by rewrite !append_assoc.
  - destruct (JS.includes d closing) eqn:E; [|reflexivity].
    apply includes_split in E as (d1 & d2 & -> & Hd2).
    assert (Hne : d2 <> "") by (intros ->; discriminate).
    specialize (Hfirst d1 d2 eq_refl Hne). unfold lit in Hfirst.
    apply (startsWith_append _ ((JS.newline +:+ fence) +:+ r5)) in Hd2.
    apply startsWith_strip in Hd2 as [r Hr]. unfold closing in Hr.
    rewrite Hr in Hfirst. discriminate.
Qed.

Lemma search_code_block s whole code rest :
  search code_block s = Some (whole, code, rest) ->
  exists pre lang,
    In lang languages
    /\ s = pre +:+ fence +:+ lang +:+ JS.newline +:+ code +:+ closing +:+ rest
    /\ JS.includes code closing = false.
Proof.
  assert (Hhere : forall t, exec_at code_block t = Some (whole, code, rest) ->
            exists pre lang,
              In lang languages
              /\ t = pre +:+ fence +:+ lang +:+ JS.newline +:+ code +:+ closing +:+ rest
              /\ JS.includes code closing = false).
  { intros t E. apply exec_at_code_block in E as (lang & Hl & Hw & Hs & Hc).
    exists "", lang. split; [exact Hl|]. split; [|exact Hc].
    rewrite Hs, Hw, append_nil_l. by rewrite !append_assoc. }
  induction s as [|c s IH]; cbn [search]; intros H.
  - destruct (exec_at code_block "") as [found|] eqn:E; [|discriminate].
    injection H as ->. by apply Hhere.
  - destruct (exec_at code_block (String c s)) as [found|] eqn:E.
    + injection H as ->. by apply Hhere.
    + destruct (IH H) as (pre & lang & Hl & -> & Hc).
      exists (String c pre), lang. by repeat split.
Qed.

End CodeBlock.

Section RoundTrip.

Lemma lazy_any_here acc cap s k found :
  k acc cap s = Some found -> lazy_any acc cap s k = Some found.
Proof. intros H. destruct s; simpl; by rewrite H. Qed.

Lemma lazy_any_skip c : forall acc cap r k,
  (forall d1 d2, c = d1 +:+ d2 -> d2 <> "" -> k (acc +:+ d1) cap (d2 +:+ r) = None) ->
  lazy_any acc cap (c +:+ r) k = lazy_any (acc +:+ c) cap r k.
Proof.
  induction c as [|a c IH]; intros acc cap r k Hnone.
  - by rewrite append_nil_l, append_nil_r.
  - rewrite append_cons. cbn [lazy_any].
    pose proof (Hnone "" (String a c) eq_refl ltac:(discriminate)) as H0.
    rewrite append_nil_r, append_cons in H0. rewrite H0.
    rewrite IH, snoc_append; [reflexivity|].
    intros d1 d2 -> Hne. rewrite snoc_append. by apply (Hnone (String a d1) d2).
Qed.

Lemma includes_suffix d1 d2 p : JS.includes (d1 +:+ d2) p = false -> JS.includes d2 p = false.
Proof.
  intros H. destruct (JS.includes d2 p) eqn:E; [|reflexivity].
  apply (includes_prepend d1) in E. congruence.
Qed.

Lemma includes_false_startsWith s p : JS.includes s p = false -> JS.startsWith s p = false.
Proof.
  intros H. destruct (JS.startsWith s p) eqn:E; [|reflexivity].
  apply startsWith_includes in E. congruence.
Qed.

(** The closing fence cannot begin inside a text that does not contain it
    and end in the closing fence that follows the text. *)
Lemma closing_not_astride d post :
  d <> "" -> JS.startsWith d closing = false ->
  JS.startsWith (d +:+ closing +:+ post) closing = false.
Proof.
  intros Hne Hd.
  destruct d as [|a1 [|a2 [|a3 [|a4 d]]]]; [by destruct Hne|..];
    revert Hd; unfold closing, fence, JS.newline;
    rewrite ?append_cons, ?append_nil_l; cbn [JS.startsWith].
  all: repeat match goal with
           | |- context [Ascii.eqb ?x ?y] => destruct (Ascii.eqb_spec x y); subst
           end.
  all: try reflexivity; try discriminate; try congruence.
  intros H. destruct d; discriminate.
Qed.

Lemma lit_fail p acc cap s k : strip_prefix p s = None -> lit p acc cap s k = None.
Proof. unfold lit. by intros ->. Qed.

Lemma opt_x_newline acc cap r k :
  opt (lit "x") acc cap (JS.newline +:+ r) k = k acc cap (JS.newline +:+ r).
Proof. unfold opt. by rewrite lit_fail. Qed.

Lemma opt_x_here acc cap r k found :
  k (acc +:+ "x") cap r = Some found ->
  opt (lit "x") acc cap ("x" +:+ r) k = Some found.
Proof. intros H. unfold opt. by rewrite lit_app, H. Qed.

(** The language tag pattern on each of the four tags, before a line end. *)
Lemma language_tag_intro lang acc cap r k found :
  In lang languages ->
  k (acc +:+ lang) cap (JS.newline +:+ r) = Some found ->
  alt (seq (lit "ts") (opt (lit "x"))) (seq (lit "js") (opt (lit "x")))
    acc cap (lang +:+ JS.newline +:+ r) k = Some found.
Proof.
  unfold languages. cbn [In]. intros [<-|[<-|[<-|[<-|[]]]]] Hk; unfold alt, seq.
  - by rewrite lit_app, opt_x_newline, Hk.
  - change ("tsx" +:+ JS.newline +:+ r) with ("ts" +:+ "x" +:+ JS.newline +:+ r).
    rewrite lit_app, (opt_x_here _ _ _ _ found); [reflexivity|].
    by rewrite append_assoc.
  - rewrite (lit_fail "ts") by reflexivity.
    by rewrite lit_app, opt_x_newline, Hk.
  - rewrite (lit_fail "ts") by reflexivity.
    change ("jsx" +:+ JS.newline +:+ r) with ("js" +:+ "x" +:+ JS.newline +:+ r).
    rewrite lit_app. apply opt_x_here. by rewrite append_assoc.
Qed.

Lemma exec_at_code_block_intro lang code post :
  In lang languages ->
  JS.includes code closing = false ->
  exec_at code_block (fence +:+ lang +:+ JS.newline +:+ code +:+ closing +:+ post)
  = Some (fence +:+ lang +:+ JS.newline +:+ code +:+ closing, code, post).
Proof.
  intros Hlang Hcode.
  unfold exec_at, code_block. unfold seq at 1. rewrite lit_app, append_nil_l.
  unfold seq at 1. apply language_tag_intro; [exact Hlang|].
  unfold seq at 1. rewrite lit_app. unfold seq, group.
  fold closing. rewrite lazy_any_skip.
  - apply lazy_any_here. rewrite lit_app, !append_nil_l. by rewrite !append_assoc.
  - intros d1 d2 -> Hne. apply lit_fail.
    destruct (strip_prefix closing (d2 +:+ closing +:+ post)) as [r|] eqn:E;
      [|reflexivity].
    assert (Hs : JS.startsWith (d2 +:+ closing +:+ post) closing = true)
      by (apply startsWith_strip; eauto).
    rewrite closing_not_astride in Hs; [discriminate| |].
    + exact Hne.
    + by apply includes_false_startsWith, (includes_suffix d1).
Qed.

Lemma search_skip_no_backtick pre t :
  JS.includes pre "`" = false -> search code_block (pre +:+ t) = search code_block t.
Proof.
  induction pre as [|a pre IH]; intros H; [reflexivity|].
  rewrite append_cons. cbn [search].
  assert (Ha : Ascii.eqb "`" a = false).
  { apply includes_false_startsWith in H. cbn [JS.startsWith] in H.
    destruct (Ascii.eqb "`" a); [destruct pre; discriminate H | reflexivity]. }
  assert (Hnone : exec_at code_block (String a (pre +:+ t)) = None).
  { unfold exec_at, code_block. unfold seq at 1. apply lit_fail.
    unfold fence. cbn [strip_prefix]. by rewrite Ha. }
  rewrite Hnone. apply IH.
  destruct (JS.includes pre "`") eqn:E; [|reflexivity].
  apply (includes_cons a) in E. congruence.
Qed.

End RoundTrip.

(** ** Parsing a completion *)

Import CodeGeneration.

(** X15.  When a completion is parsed, the code that is returned stands in
    the completion between an opening fence that is followed by ts, tsx, js
    or jsx and a line end, and a closing fence at a line start; the code
    itself contains no closing fence. *)
Theorem parsed_code_is_the_first_block :
  forall response generated,
    parseAndValidateCode response = Ok generated ->
    exists pre lang post,
      In lang languages
      /\ response = pre +:+ fence +:+ lang +:+ JS.newline +:+ code generated
                    +:+ closing +:+ post
      /\ JS.includes (code generated) closing = false.
Proof.
  intros response generated H. unfold parseAndValidateCode in H.
  destruct (search code_block response) as [[[whole c] rest]|] eqn:E; [|discriminate].
  injection H as <-. cbn [code].
  apply search_code_block in E as (pre & lang & Hl & Hs & Hc).
  by exists pre, lang, rest.
Qed.

Lemma parsed_code_is_the_first_block_witness :
  exists pre lang post,
    In lang languages
    /\ "```js" +:+ JS.newline +:+ "let x;" +:+ JS.newline +:+ "```"
       = pre +:+ fence +:+ lang +:+ JS.newline +:+ "let x;" +:+ closing +:+ post
    /\ JS.includes "let x;" closing = false.
Proof.
  apply (parsed_code_is_the_first_block
           ("```js" +:+ JS.newline +:+ "let x;" +:+ JS.newline +:+ "```")
           {| code := "let x;"; imports := []; dependencies := [];
              warnings := validateCode "let x;" |}).
  reflexivity.
Defined.

Lemma parser_error_message response message :
  parseAndValidateCode response = Err message ->
  message = "No code block found in LLM response".
Proof.
  unfold parseAndValidateCode.
  destruct (search code_block response) as [[[whole c] rest]|]; [discriminate|].
  by intros [= <-].
Qed.

(** X16.  A completion without an opening fence followed by ts, tsx, js or
    jsx and a line end, or without a closing fence at a line start, is
    refused, and the only error of the parser is that no code block was
    found. *)
Theorem completion_without_block_is_refused :
  forall response,
    ((forall lang, In lang languages ->
        JS.includes response (fence +:+ lang +:+ JS.newline) = false)
     \/ JS.includes response closing = false ->
     parseAndValidateCode response = Err "No code block found in LLM response")
    /\ (forall message, parseAndValidateCode response = Err message ->
                        message = "No code block found in LLM response").
Proof.
  intros response. split.
  - intros Hmissing. unfold parseAndValidateCode.
    destruct (search code_block response) as [[[whole c] rest]|] eqn:E; [|reflexivity].
    exfalso. apply search_code_block in E as (pre & lang & Hl & Hs & _).
    destruct Hmissing as [Hopen|Hclose].
    + specialize (Hopen lang Hl).
      assert (Hin : JS.includes response (fence +:+ lang +:+ JS.newline) = true).
      { rewrite Hs.
        replace (fence +:+ lang +:+ JS.newline +:+ c +:+ closing +:+ rest)
          with ((fence +:+ lang +:+ JS.newline) +:+ c +:+ closing +:+ rest)
          by (by rewrite !append_assoc).
        apply includes_prepend, startsWith_includes, startsWith_app. }
      congruence.
    + assert (Hin : JS.includes response closing = true).
      { rewrite Hs. do 5 apply includes_prepend.
        apply startsWith_includes, startsWith_app. }
      congruence.
  - intros message H. by apply parser_error_message in H.
Qed.

Lemma completion_without_block_is_refused_witness :
  parseAndValidateCode
    ("```typescript" +:+ JS.newline +:+ "let x;" +:+ JS.newline +:+ "```")
  = Err "No code block found in LLM response".
Proof.
  apply (proj1 (completion_without_block_is_refused
    ("```typescript" +:+ JS.newline +:+ "let x;" +:+ JS.newline +:+ "```"))).
  left. unfold languages. simpl. intros lang H.
  repeat (destruct H as [<-|H]; [reflexivity|]). destruct H.
Defined.

(** X17.  Fencing and parsing is a round trip: a code without a closing
    fence, put between an opening fence with a recognised tag and a closing
    fence, after a text without a backtick and before any text, is parsed
    back as it was. *)
Theorem fenced_code_is_parsed_back :
  forall pre lang source post,
    JS.includes pre "`" = false ->
    In lang languages ->
    JS.includes source closing = false ->
    exists generated,
      parseAndValidateCode
        (pre +:+ fence +:+ lang +:+ JS.newline +:+ source +:+ closing +:+ post)
      = Ok generated
      /\ code generated = source
      /\ imports generated = exec_all import_statement source 0
      /\ dependencies generated = extractDependencies (imports generated)
      /\ warnings generated = validateCode source.
Proof.
  intros pre lang source post Hpre Hlang Hsource. unfold parseAndValidateCode.
  rewrite search_skip_no_backtick by exact Hpre.
  assert (Hsearch : search code_block
            (fence +:+ lang +:+ JS.newline +:+ source +:+ closing +:+ post)
          = Some (fence +:+ lang +:+ JS.newline +:+ source +:+ closing, source, post)).
  { pose proof (exec_at_code_block_intro lang source post Hlang Hsource) as E.
    destruct (fence +:+ lang +:+ JS.newline +:+ source +:+ closing +:+ post);
      cbn [search]; by rewrite E. }
  rewrite Hsearch. eexists. repeat split.
Qed.

Lemma fenced_code_is_parsed_back_witness :
  exists generated,
    parseAndValidateCode
      ("Here it is:" +:+ fence +:+ "tsx" +:+ JS.newline +:+ "export default App;"
       +:+ closing +:+ " Done.")
    = Ok generated
    /\ code generated = "export default App;"
    /\ imports generated = exec_all import_statement "export default App;" 0
    /\ dependencies generated = extractDependencies (imports generated)
    /\ warnings generated = validateCode "export default App;".
Proof.
  apply (fenced_code_is_parsed_back "Here it is:" "tsx" "export default App;" " Done.").
  - reflexivity.
  - unfold languages. simpl. tauto.
  - reflexivity.
Defined.

(** X18.  Every import statement the parser extracts occurs in the code
    and begins with the word import. *)
Theorem extracted_imports_occur_in_code :
  forall response generated imp,
    parseAndValidateCode response = Ok generated ->
    In imp (imports generated) ->
    JS.includes (code generated) imp = true /\ JS.startsWith imp "import" = true.
Proof.
  intros response generated imp H Himp. unfold parseAndValidateCode in H.
  destruct (search code_block response) as [[[whole c] rest]|]; [|discriminate].
  injection H as <-. cbn [code imports] in *. split.
  - eapply exec_all_includes; [apply extends_import_statement | exact Himp].
  - unfold import_statement in Himp.
    eapply exec_all_lit_prefix; [apply extends_import_tail | exact Himp].
Qed.

Lemma extracted_imports_occur_in_code_witness :
  JS.includes "import React from 'react';" "import React from 'react'" = true
  /\ JS.startsWith "import React from 'react'" "import" = true.
Proof.
  apply (extracted_imports_occur_in_code
           ("```js" +:+ JS.newline +:+ "import React from 'react';" +:+ JS.newline +:+ "```")
           {| code := "import React from 'react';";
              imports := ["import React from 'react'"];
              dependencies := ["react"];
              warnings := validateCode "import React from 'react';" |}).
  - reflexivity.
  - left. reflexivity.
Defined.

(** ** Dependencies *)

Section Dependencies.

Lemma split_first c rest :
  Ascii.eqb c "/" = false ->
  exists h t, JS.split "/" (String c rest) = String c h :: t.
Proof.
  intros Hc. cbn [JS.split]. rewrite Hc.
  destruct (JS.split "/" rest) as [|h t]; eauto.
Qed.

Lemma split_not_nil sep s : JS.split sep s <> [].
Proof.
  destruct s as [|c s]; cbn [JS.split]; [discriminate|].
  destruct (Ascii.eqb c sep); [discriminate|].
  destruct (JS.split sep s); discriminate.
Qed.

(** A text without the separator is its own only segment, and it is the
    first segment of what it is followed by after a separator. *)
Lemma split_no_separator a :
  JS.includes a "/" = false -> JS.split "/" a = [a].
Proof.
  induction a as [|c a IH]; intros H; [reflexivity|].
  assert (Hc : Ascii.eqb c "/" = false).
  { apply includes_false_startsWith in H. cbn [JS.startsWith] in H.
    rewrite Ascii.eqb_sym. destruct (Ascii.eqb "/" c); [by destruct a | reflexivity]. }
  cbn [JS.split]. rewrite Hc, IH; [reflexivity|].
  destruct (JS.includes a "/") eqn:E; [|reflexivity].
  apply (includes_cons c) in E. congruence.
Qed.

Lemma split_segment a rest :
  JS.includes a "/" = false ->
  JS.split "/" (a +:+ "/" +:+ rest) = a :: JS.split "/" rest.
Proof.
  induction a as [|c a IH]; intros H; [reflexivity|].
  assert (Hc : Ascii.eqb c "/" = false).
  { apply includes_false_startsWith in H. cbn [JS.startsWith] in H.
    rewrite Ascii.eqb_sym. destruct (Ascii.eqb "/" c); [by destruct a | reflexivity]. }
  rewrite append_cons. cbn [JS.split]. rewrite Hc, IH; [reflexivity|].
  destruct (JS.includes a "/") eqn:E; [|reflexivity].
  apply (includes_cons c) in E. congruence.
Qed.

(** X19.  The package of a module path is the path up to its first slash,
    and up to its second slash when the path begins with an at sign; a
    path with no further segment is its own package. *)
Theorem package_of_a_module_path :
  (forall a rest,
      JS.includes a "/" = false -> JS.startsWith a "@" = false ->
      package_name a = a
      /\ (a <> "" -> package_name (a +:+ "/" +:+ rest) = a))
  /\ (forall a b rest,
      JS.includes a "/" = false -> JS.includes b "/" = false ->
      package_name ("@" +:+ a) = "@" +:+ a
      /\ package_name ("@" +:+ a +:+ "/" +:+ b) = "@" +:+ a +:+ "/" +:+ b
      /\ package_name ("@" +:+ a +:+ "/" +:+ b +:+ "/" +:+ rest) = "@" +:+ a +:+ "/" +:+ b).
Proof.
  split.
  - intros a rest Ha Hat. split.
    + unfold package_name. by rewrite Hat, split_no_separator.
    + intros Hne. unfold package_name.
      assert (Hat' : JS.startsWith (a +:+ "/" +:+ rest) "@" = false).
      { destruct a as [|c a]; [by destruct Hne|].
        rewrite append_cons. cbn [JS.startsWith] in *.
        destruct (Ascii.eqb "@" c); [destruct a; discriminate Hat | reflexivity]. }
      by rewrite Hat', split_segment.
  - intros a b rest Ha Hb.
    assert (Hscoped : JS.includes ("@" +:+ a) "/" = false).
    { assert (Hcons : "@" +:+ a = String "@"%char a) by reflexivity.
      rewrite Hcons.
      destruct (JS.includes (String "@"%char a) "/") eqn:E; [|reflexivity].
      apply includes_inv in E as [E|(c & r & Heq & E)].
      - cbn [JS.startsWith] in E. discriminate E.
      - injection Heq as _ <-. congruence. }
    assert (Hat : forall r, JS.startsWith ("@" +:+ r) "@" = true) by (by intros []).
    unfold package_name.
    split; [|split].
    + by rewrite Hat, split_no_separator.
    + change ("@" +:+ a +:+ "/" +:+ b) with ("@" +:+ (a +:+ "/" +:+ b)) at 1.
      rewrite Hat.
      replace ("@" +:+ a +:+ "/" +:+ b) with (("@" +:+ a) +:+ "/" +:+ b)
        by apply append_assoc.
      by rewrite split_segment, (split_no_separator b).
    + rewrite Hat.
      replace ("@" +:+ a +:+ "/" +:+ b +:+ "/" +:+ rest)
        with (("@" +:+ a) +:+ "/" +:+ b +:+ "/" +:+ rest) by apply append_assoc.
      rewrite split_segment, (split_segment b) by assumption.
      cbn [take JS.join]. by rewrite append_assoc.
Qed.

Lemma package_of_a_module_path_witness :
  package_name ("lodash" +:+ "/" +:+ "fp") = "lodash"
  /\ package_name ("@" +:+ "salt-ds" +:+ "/" +:+ "core" +:+ "/" +:+ "Button")
     = "@" +:+ "salt-ds" +:+ "/" +:+ "core".
Proof.
  split.
  - apply (proj1 package_of_a_module_path "lodash" "fp"); [reflexivity..|discriminate].
  - apply (proj2 package_of_a_module_path "salt-ds" "core" "Button"); reflexivity.
Defined.

Lemma package_name_external dep :
  dep <> "" -> external dep = true ->
  package_name dep <> "" /\ external (package_name dep) = true.
Proof.
  intros Hne Hext. destruct dep as [|c rest]; [by destruct Hne|].
  unfold external in *. cbn [JS.startsWith] in Hext.
  apply andb_true_iff in Hext as [Hdot Hslash].
  assert (Hc1 : Ascii.eqb "." c = false).
  { destruct (Ascii.eqb "." c); [by destruct rest | reflexivity]. }
  assert (Hc2 : Ascii.eqb "/" c = false).
  { destruct (Ascii.eqb "/" c); [by destruct rest | reflexivity]. }
  assert (Hsplit : exists h t, JS.split "/" (String c rest) = String c h :: t).
  { apply split_first. by rewrite Ascii.eqb_sym. }
  destruct Hsplit as (h & t & Hsplit).
  unfold package_name. rewrite Hsplit.
  destruct (JS.startsWith (String c rest) "@").
  - destruct t as [|t1 t]; cbn [take JS.join].
    + split; [discriminate|]. cbn [JS.startsWith]. by rewrite Hc1, Hc2.
    + rewrite append_cons. split; [discriminate|]. cbn [JS.startsWith].
      by rewrite Hc1, Hc2.
  - cbn [hd]. split; [discriminate|]. cbn [JS.startsWith]. by rewrite Hc1, Hc2.
Qed.

Lemma add_dependency_invariant deps imp :
  NoDup deps /\ Forall (fun d => d <> "" /\ external d = true) deps ->
  NoDup (add_dependency deps imp)
  /\ Forall (fun d => d <> "" /\ external d = true) (add_dependency deps imp).
Proof.
  intros [Hnd Hall]. unfold add_dependency.
  destruct (search from_module imp) as [[[whole dep] rest]|] eqn:E; [|by split].
  fold (external dep). destruct (external dep) eqn:Hext; [|by split].
  apply (search_captures _ _ _ _ _ _ captures_from_module) in E.
  split; [by apply set_add_NoDup|].
  apply List.Forall_forall. intros d Hd. apply set_add_In in Hd as [->|Hd].
  - by apply package_name_external.
  - rewrite List.Forall_forall in Hall. by apply Hall.
Qed.

(** X20.  The dependencies extracted from a list of import statements are
    distinct, none is empty and none is a relative or absolute path. *)
Theorem dependencies_are_distinct_packages :
  forall imports,
    NoDup (extractDependencies imports)
    /\ (forall d, In d (extractDependencies imports) ->
                  d <> "" /\ JS.startsWith d "." = false /\ JS.startsWith d "/" = false).
Proof.
  intros imports. unfold extractDependencies.
  assert (Hinv : forall deps,
    NoDup deps /\ Forall (fun d => d <> "" /\ external d = true) deps ->
    NoDup (fold_left add_dependency imports deps)
    /\ Forall (fun d => d <> "" /\ external d = true) (fold_left add_dependency imports deps)).
  { induction imports as [|imp imports IH]; intros deps Hdeps; [exact Hdeps|].
    cbn [fold_left]. by apply IH, add_dependency_invariant. }
  destruct (Hinv []) as [Hnd Hall]; [split; constructor|].
  split; [exact Hnd|]. intros d Hd.
  rewrite List.Forall_forall in Hall. destruct (Hall d Hd) as [Hne Hext].
  unfold external in Hext. apply andb_true_iff in Hext as [H1 H2].
  apply negb_true_iff in H1, H2. by repeat split.
Qed.

Lemma dependencies_are_distinct_packages_witness :
  "react" <> "" /\ JS.startsWith "react" "." = false /\ JS.startsWith "react" "/" = false.
Proof.
  apply (proj2 (dependencies_are_distinct_packages
                  ["import React from 'react'"; "import x from './x'"]) "react").
  left. reflexivity.
Defined.

End Dependencies.

(** ** The advisory checks *)

Section Warnings.

Lemma validateCode_cases code :
  validateCode code =
  (if lacks_provider code then ["Component should be wrapped in SaltProvider"] else [])
  ++ (if lacks_types code
      then ["Consider adding TypeScript types for the component"] else [])
  ++ (if lacks_accessibility code then ["Consider adding accessibility attributes"] else [])
  ++ (if lacks_error_handling code then ["Consider adding error handling"] else []).
Proof.
  unfold validateCode, lacks_provider, lacks_types, lacks_accessibility,
    lacks_error_handling.
  destruct (negb (JS.includes code "SaltProvider"));
    destruct (negb (JS.includes code ": FC") && negb (JS.includes code "React.FC"));
    destruct (negb (JS.includes code "aria-") && negb (JS.includes code "role="));
    destruct (negb (JS.includes code "ErrorBoundary") && negb (JS.includes code "try")
              && negb (JS.includes code "catch"));
    reflexivity.
Qed.

(** X21.  The warnings of a code come in the order of the four checks,
    each at most once, and there is none exactly when the code contains
    "SaltProvider", one of ": FC" and "React.FC", one of "aria-" and
    "role=", and one of "ErrorBoundary", "try" and "catch". *)
Theorem warnings_in_check_order :
  forall code,
    sublist (validateCode code) all_warnings
    /\ (validateCode code = [] <->
        JS.includes code "SaltProvider" = true
        /\ (JS.includes code ": FC" = true \/ JS.includes code "React.FC" = true)
        /\ (JS.includes code "aria-" = true \/ JS.includes code "role=" = true)
        /\ (JS.includes code "ErrorBoundary" = true \/ JS.includes code "try" = true
            \/ JS.includes code "catch" = true)).
Proof.
  intros code. rewrite validateCode_cases. split.
  - unfold all_warnings.
    destruct (lacks_provider code), (lacks_types code), (lacks_accessibility code),
      (lacks_error_handling code); cbn [app];
      repeat first [ apply sublist_nil | apply sublist_skip | apply sublist_cons ].
  - unfold lacks_provider, lacks_types, lacks_accessibility, lacks_error_handling.
    destruct (JS.includes code "SaltProvider"), (JS.includes code ": FC"),
      (JS.includes code "React.FC"), (JS.includes code "aria-"),
      (JS.includes code "role="), (JS.includes code "ErrorBoundary"),
      (JS.includes code "try"), (JS.includes code "catch");
      cbn; split; intros H; try discriminate; try reflexivity;
      try (repeat split; auto; fail);
      try (destruct H as (H1 & H2 & H3 & H4); repeat destruct H2 as [H2|H2];
           repeat destruct H3 as [H3|H3]; repeat destruct H4 as [H4|H4]; discriminate).
Qed.

Lemma includes_grows pre s post p :
  JS.includes (pre +:+ s +:+ post) p = false -> JS.includes s p = false.
Proof.
  intros H. destruct (JS.includes s p) eqn:E; [|reflexivity].
  apply (includes_middle pre _ post) in E. congruence.
Qed.

(** X22.  Text added before or after a code never adds a warning: every
    warning of the longer text is a warning of the code. *)
Theorem more_text_no_more_warnings :
  forall pre code post w,
    In w (validateCode (pre +:+ code +:+ post)) -> In w (validateCode code).
Proof.
  intros pre code post w. rewrite !validateCode_cases, !in_app_iff.
  assert (Hmono : forall (f : string -> bool) msg,
            (f (pre +:+ code +:+ post) = true -> f code = true) ->
            In w (if f (pre +:+ code +:+ post) then [msg] else []) ->
            In w (if f code then [msg] else [])).
  { intros f msg Hf. destruct (f (pre +:+ code +:+ post)); [|intros []].
    by rewrite Hf. }
  assert (Hneg : forall p, negb (JS.includes (pre +:+ code +:+ post) p) = true ->
                           negb (JS.includes code p) = true).
  { intros p Hp. apply negb_true_iff in Hp. apply negb_true_iff.
    by apply includes_grows in Hp. }
  intros [H|[H|[H|H]]]; [left|right; left|right; right; left|right; right; right];
    revert H; apply Hmono;
    unfold lacks_provider, lacks_types, lacks_accessibility, lacks_error_handling;
    rewrite ?andb_true_iff; intuition auto.
Qed.

Lemma more_text_no_more_warnings_witness :
  In "Consider adding error handling" (validateCode "<SaltProvider />").
Proof.
  apply (more_text_no_more_warnings "// aria-label" "<SaltProvider />" ": FC"
           "Consider adding error handling").
  vm_compute. tauto.
Defined.

End Warnings.

(** ** A generation, end to end *)

Section GenerationOutcome.

Variable stringify : FigmaData -> string.
Variable number_to_string : Q -> string.
Variable callLLM : string -> Result string.
Variable remote : Remote.

(** X23.  A generation fails only when the completion call fails or the
    completion has no code block, never because of the example lookups; the
    error is then "Failed to generate code: " followed by the cause, which
    is logged.  When it succeeds the result is the parsed completion and
    nothing is logged.  Either way the generator is left as the example
    lookups left it, without a warning. *)
Theorem generation_outcome :
  forall request st,
    let generation := generateReactCode stringify number_to_string callLLM remote request st in
    generator generation =
      snd (fetchRelevantExamples remote (mapToSaltComponents (figmaData request)) st)
    /\ warned (generator generation) = warned st
    /\ (forall generated,
          result generation = Ok generated ->
          logged generation = []
          /\ exists prompt response,
               callLLM prompt = Ok response
               /\ parseAndValidateCode response = Ok generated)
    /\ (forall message,
          result generation = Err message ->
          exists cause,
            message = "Failed to generate code: " +:+ cause
            /\ logged generation = [cause]
            /\ (cause = "No code block found in LLM response"
                \/ exists prompt, callLLM prompt = Err cause)).
Proof.
  intros request st generation. subst generation. unfold generateReactCode.
  pose proof (fetch_fold_warned remote
                (JS.new_Set (map sc_type (mapToSaltComponents (figmaData request)))) [] st)
    as Hwarned.
  fold (fetchRelevantExamples remote (mapToSaltComponents (figmaData request)) st) in Hwarned.
  destruct (fetchRelevantExamples remote (mapToSaltComponents (figmaData request)) st)
    as [examples st1].
  cbn [snd] in *.
  set (prompt := buildPrompt stringify number_to_string _ _ _ _).
  destruct (callLLM prompt) as [response|cause] eqn:Hllm.
  - destruct (parseAndValidateCode response) as [generated|cause] eqn:Hparse;
      cbn [generator result logged].
    + split; [reflexivity|]. split; [exact Hwarned|]. split.
      * intros g [= <-]. split; [reflexivity|]. by exists prompt, response.
      * intros message [=].
    + split; [reflexivity|]. split; [exact Hwarned|]. split.
      * intros g [=].
      * intros message [= <-]. exists cause.
        split; [reflexivity|]. split; [reflexivity|]. left.
        by apply (parser_error_message response).
  - cbn [generator result logged].
    split; [reflexivity|]. split; [exact Hwarned|]. split.
    + intros g [=].
    + intros message [= <-]. exists cause.
      split; [reflexivity|]. split; [reflexivity|]. right. by exists prompt.
Qed.

(** X24.  Only the component types of the root components are looked up:
    when the root of the design is classified, a generation posts at most
    one question to the example endpoint, for the type of the root, and
    uses at most one example, whatever the tree below the root holds. *)
Theorem only_the_root_type_is_looked_up :
  forall figmaData st type,
    detectComponentType (structure figmaData) = Some type ->
    let fetched := fetchRelevantExamples remote (mapToSaltComponents figmaData) st in
    (forall ty, In ty (posted_since st (snd fetched)) -> ty = type)
    /\ length (posted_since st (snd fetched)) <= 1
    /\ length (fst fetched) <= 1.
Proof.
  intros figmaData st type Hroot fetched. subst fetched.
  assert (Htypes : map sc_type (mapToSaltComponents figmaData) = [type]).
  { unfold mapToSaltComponents. rewrite processNode_forest, mapped_forest_unfold.
    unfold createSaltComponent. rewrite Hroot. reflexivity. }
  rewrite fetchRelevantExamples_posted, fetchRelevantExamples_examples, Htypes.
  change (JS.new_Set [type]) with [type]. cbn [List.filter]. csimpl.
  split; [|split].
  - intros ty Hty. destruct (uncached (exampleCache st) type); [|destruct Hty].
    destruct Hty as [<-|[]]. reflexivity.
  - destruct (uncached (exampleCache st) type); simpl; lia.
  - destruct (entry remote (exampleCache st) type); simpl; lia.
Qed.

End GenerationOutcome.

Lemma generation_outcome_witness :
  let generation :=
    generateReactCode (fun _ => "{}") (fun _ => "6")
      (fun _ => Err "timeout of 1000ms exceeded") (fun _ => PostFails)
      (mkRequest (mkFigmaData scenario) "" None None) (mkState ∅ [] []) in
  exists cause,
    "Failed to generate code: timeout of 1000ms exceeded"
    = "Failed to generate code: " +:+ cause
    /\ logged generation = [cause]
    /\ (cause = "No code block found in LLM response"
        \/ exists prompt, (fun _ : string => @Err string "timeout of 1000ms exceeded") prompt
                          = Err cause).
Proof.
  intros generation.
  apply (proj2 (proj2 (proj2 (generation_outcome (fun _ => "{}") (fun _ => "6")
           (fun _ => Err "timeout of 1000ms exceeded") (fun _ => PostFails)
           (mkRequest (mkFigmaData scenario) "" None None) (mkState ∅ [] []))))).
  reflexivity.
Defined.

Lemma only_the_root_type_is_looked_up_witness :
  length (fst (fetchRelevantExamples (fun _ => Reply (Some "example"))
                 (mapToSaltComponents (mkFigmaData scenario)) (mkState ∅ [] []))) <= 1.
Proof.
  apply (proj2 (proj2 (only_the_root_type_is_looked_up (fun _ => Reply (Some "example"))
                         (mkFigmaData scenario) (mkState ∅ [] []) "Stack" eq_refl))).
Defined.
